(** * adam: identity provisioning and per-device storage

    A shallow embedding of
      - package [cmd]: the [generate onboard] and [generate device]
        commands (common-name squashing and the certificate file pair),
      - package [common] ([pkg/driver/common/common.go]): the
        [DeviceStorage] aggregate, its [AddX] methods, the attestation
        records and the base-object constructors,
    together with the Go library routines these call
    ([utf8.DecodeRuneInString], [regexp], [path.Join], [fmt.Sprintf],
    [encoding/json], [proto.Marshal]).

    Go strings are byte sequences: they are [string]s of 8-bit [ascii]
    characters here, and a rune is a code point in [N]. *)

From Stdlib Require Import NArith ZArith Ascii String List Bool Lia DecimalString.
From stdpp Require Import base option list strings functions gmap.

Local Open Scope string_scope.

(** ** Go strings *)

Module GoString.

(** [s[n:]] *)
Fixpoint drop (n : nat) (s : string) : string :=
  match n, s with
  | O, _ => s
  | S n', String _ t => drop n' t
  | S _, EmptyString => EmptyString
  end.

(** [s[:n]] *)
Fixpoint take (n : nat) (s : string) : string :=
  match n, s with
  | O, _ => EmptyString
  | S n', String c t => String c (take n' t)
  | S _, EmptyString => EmptyString
  end.

(** every byte of [s] satisfies [p] *)
Fixpoint all (p : ascii -> bool) (s : string) : bool :=
  match s with
  | EmptyString => true
  | String c t => p c && all p t
  end.

(** bytewise map *)
Fixpoint map (f : ascii -> ascii) (s : string) : string :=
  match s with
  | EmptyString => EmptyString
  | String c t => String (f c) (map f t)
  end.

Definition byte (c : ascii) : N := N_of_ascii c.

End GoString.

(** ** unicode/utf8 *)

Module utf8.
Local Open Scope N_scope.

Definition RuneError : N := 0xFFFD.
Definition RuneSelf : N := 0x80.
Definition MaxRune : N := 0x10FFFF.

Definition maskx : N := 0x3F.
Definition mask2 : N := 0x1F.
Definition mask3 : N := 0x0F.
Definition mask4 : N := 0x07.
Definition locb : N := 0x80.
Definition hicb : N := 0xBF.

(** Entries of the [first] table: the low three bits are the length of
    the sequence, the high four bits index [acceptRanges]. *)
Definition xx : N := 0xF1.
Definition as_ : N := 0xF0.
Definition s1 : N := 0x02.
Definition s2 : N := 0x13.
Definition s3 : N := 0x03.
Definition s4 : N := 0x23.
Definition s5 : N := 0x34.
Definition s6 : N := 0x04.
Definition s7 : N := 0x44.

(** The 256-entry table [first], given by the ranges of its rows. *)
Definition first (b : N) : N :=
  if b <? 0x80 then as_
  else if b <? 0xC2 then xx
  else if b <? 0xE0 then s1
  else if b =? 0xE0 then s2
  else if b <? 0xED then s3
  else if b =? 0xED then s4
  else if b <? 0xF0 then s3
  else if b =? 0xF0 then s5
  else if b <? 0xF4 then s6
  else if b =? 0xF4 then s7
  else xx.

Definition acceptRanges (i : N) : N * N :=
  match i with
  | 0 => (locb, hicb)
  | 1 => (0xA0, hicb)
  | 2 => (locb, 0x9F)
  | 3 => (0x90, hicb)
  | 4 => (locb, 0x8F)
  | _ => (0, 0)
  end.

(** [utf8.DecodeRuneInString]: the first rune of [s] and its width in
    bytes; [(RuneError, 1)] on an invalid encoding, [(RuneError, 0)] on
    the empty string. *)
Definition DecodeRuneInString (s : string) : N * nat :=
  match s with
  | EmptyString => (RuneError, 0%nat)
  | String c0 t0 =>
    let b0 := GoString.byte c0 in
    let x := first b0 in
    if as_ <=? x then
      (* mask := rune(x) << 31 >> 31 is all ones exactly when bit 0 of x is set *)
      (if N.testbit x 0 then RuneError else b0, 1%nat)
    else
      let sz := N.land x 7 in
      let accept := acceptRanges (N.shiftr x 4) in
      if N.of_nat (String.length s) <? sz then (RuneError, 1%nat)
      else
        match t0 with
        | EmptyString => (RuneError, 1%nat)
        | String c1 t1 =>
          let b1 := GoString.byte c1 in
          if (b1 <? fst accept) || (snd accept <? b1) then (RuneError, 1%nat)
          else if sz <=? 2 then
            (N.lor (N.shiftl (N.land b0 mask2) 6) (N.land b1 maskx), 2%nat)
          else
            match t1 with
            | EmptyString => (RuneError, 1%nat)
            | String c2 t2 =>
              let b2 := GoString.byte c2 in
              if (b2 <? locb) || (hicb <? b2) then (RuneError, 1%nat)
              else if sz <=? 3 then
                (N.lor (N.lor (N.shiftl (N.land b0 mask3) 12)
                              (N.shiftl (N.land b1 maskx) 6))
                       (N.land b2 maskx), 3%nat)
              else
                match t2 with
                | EmptyString => (RuneError, 1%nat)
                | String c3 _ =>
                  let b3 := GoString.byte c3 in
                  if (b3 <? locb) || (hicb <? b3) then (RuneError, 1%nat)
                  else
                    (N.lor (N.lor (N.lor (N.shiftl (N.land b0 mask4) 18)
                                         (N.shiftl (N.land b1 maskx) 12))
                                  (N.shiftl (N.land b2 maskx) 6))
                           (N.land b3 maskx), 4%nat)
                end
            end
        end
  end.

End utf8.

(** ** regexp: bracket expressions

    The two commands compile one pattern, a single bracket expression.
    [Compile] parses such a pattern the way [regexp/syntax] does under the
    Perl flags: an optional leading [^], then single characters, escaped
    punctuation ([\c] stands for [c] itself), C escapes and ranges [lo-hi];
    a [-] just before the closing bracket is a literal.  Anything else
    (named classes, Perl classes, octal and hex escapes, patterns that are
    not one bracket expression) is outside this fragment and yields
    [None]. *)

Module regexp.
Local Open Scope N_scope.

Record Regexp := mkRegexp {
  negated : bool;
  ranges : list (N * N)
}.

Definition isalnum (c : N) : bool :=
  ((0x30 <=? c) && (c <=? 0x39)) ||
  ((0x41 <=? c) && (c <=? 0x5A)) ||
  ((0x61 <=? c) && (c <=? 0x7A)).

(** [parseEscape], entered after the backslash *)
Definition parseEscape (t : string) : option (N * string) :=
  match t with
  | EmptyString => None
  | String c t' =>
    let b := GoString.byte c in
    if b =? 0x61 then Some (7, t')          (* \a *)
    else if b =? 0x66 then Some (12, t')    (* \f *)
    else if b =? 0x6E then Some (10, t')    (* \n *)
    else if b =? 0x72 then Some (13, t')    (* \r *)
    else if b =? 0x74 then Some (9, t')     (* \t *)
    else if b =? 0x76 then Some (11, t')    (* \v *)
    else if (b <? utf8.RuneSelf) && negb (isalnum b) then Some (b, t')
    else None
  end.

(** [parseClassChar] *)
Definition parseClassChar (s : string) : option (N * string) :=
  match s with
  | EmptyString => None
  | String c t =>
    let b := GoString.byte c in
    if b =? 0x5C then parseEscape t
    else if b <? utf8.RuneSelf then Some (b, t)
    else None
  end.

Definition startsWith (c : ascii) (s : string) : bool :=
  match s with
  | String d _ => if decide (c = d) then true else false
  | EmptyString => false
  end.

(** [parseRange]: one character, or a range [lo-hi] *)
Definition parseRange (s : string) : option ((N * N) * string) :=
  match parseClassChar s with
  | None => None
  | Some (lo, rest) =>
    match rest with
    | String "-" rest' =>
      if startsWith "]" rest' then Some ((lo, lo), rest)
      else
        match rest' with
        | EmptyString => Some ((lo, lo), rest)
        | _ =>
          match parseClassChar rest' with
          | None => None
          | Some (hi, rest'') =>
            if hi <? lo then None else Some ((lo, hi), rest'')
          end
        end
    | _ => Some ((lo, lo), rest)
    end
  end.

(** the loop of [parseClass]; [first] allows a leading [\]] *)
Fixpoint parseItems (fuel : nat) (first : bool) (t : string)
    : option (list (N * N) * string) :=
  match fuel with
  | O => None
  | S fuel' =>
    match t with
    | EmptyString => None
    | String c t' =>
      if (if decide (c = "]"%char) then true else false) && negb first
      then Some ([], t')
      else if startsWith "[" t && startsWith ":" t' then None
      else if startsWith "\" t &&
              (startsWith "p" t' || startsWith "P" t' ||
               startsWith "d" t' || startsWith "D" t' ||
               startsWith "s" t' || startsWith "S" t' ||
               startsWith "w" t' || startsWith "W" t') then None
      else
        match parseRange t with
        | None => None
        | Some (r, rest) =>
          match parseItems fuel' false rest with
          | None => None
          | Some (rs, rest') => Some (r :: rs, rest')
          end
        end
    end
  end.

(** [regexp.Compile] on a pattern that is one bracket expression *)
Definition Compile (pat : string) : option Regexp :=
  match pat with
  | String "[" t =>
    let neg := startsWith "^" t in
    let t := if neg then GoString.drop 1 t else t in
    match parseItems (S (String.length t)) true t with
    | Some (rs, EmptyString) => Some (mkRegexp neg rs)
    | _ => None
    end
  | _ => None
  end.

Definition inRanges (rs : list (N * N)) (r : N) : bool :=
  existsb (fun lh => (fst lh <=? r) && (r <=? snd lh)) rs.

(** does the one-rune pattern match the rune [r]? *)
Definition matchRune (re : Regexp) (r : N) : bool :=
  xorb (negated re) (inRanges (ranges re) r).

(** The scan of [ReplaceAllString]: at each position the next rune is
    decoded; a matching rune is replaced by [repl], any other is copied
    as its bytes; the position advances by the rune's width. *)
Fixpoint replaceAll (re : Regexp) (repl : string) (fuel : nat) (src : string) : string :=
  match fuel with
  | O => src
  | S fuel' =>
    match src with
    | EmptyString => EmptyString
    | _ =>
      let '(r, w) := utf8.DecodeRuneInString src in
      (if matchRune re r then repl else GoString.take w src)
        +:+ replaceAll re repl fuel' (GoString.drop w src)
    end
  end.

(** [re.ReplaceAllString(src, repl)] for a [repl] without [$], which
    the template expansion leaves as it is. *)
Definition ReplaceAllString (re : Regexp) (src repl : string) : string :=
  replaceAll re repl (String.length src) src.

End regexp.

(** ** path *)

Module path.

Definition isSlash (c : ascii) : bool := if decide (c = "/"%char) then true else false.
Definition isDot (c : ascii) : bool := if decide (c = "."%char) then true else false.

(** End of a path element: [r == n || path[r] == '/']. *)
Definition atElemEnd (p : string) : bool :=
  match p with
  | EmptyString => true
  | String c _ => isSlash c
  end.

Definition startsWithDot (p : string) : bool :=
  match p with
  | EmptyString => false
  | String c _ => isDot c
  end.

(** The output buffer of [Clean] is kept as the list of its first [w]
    bytes, last byte first.  Backing up over one element:
    [out.w--; for out.w > dotdot && out.index(out.w) != '/' { out.w-- }]. *)
Fixpoint backUp (rout : list ascii) (dotdot : nat) : list ascii :=
  match rout with
  | [] => []
  | c :: rest =>
    if (dotdot <? List.length rest)%nat && negb (isSlash c)
    then backUp rest dotdot
    else rest
  end.

(** [for ; r < n && path[r] != '/'; r++ { out.append(path[r]) }] *)
Fixpoint copyElem (p : string) (rout : list ascii) : list ascii * string :=
  match p with
  | EmptyString => (rout, EmptyString)
  | String c t => if isSlash c then (rout, p) else copyElem t (c :: rout)
  end.

(** The loop [for r < n] of [Clean]; [p] is [path[r:]]. *)
Fixpoint cleanLoop (fuel : nat) (rooted : bool) (p : string)
    (rout : list ascii) (dotdot : nat) : list ascii :=
  match fuel with
  | O => rout
  | S fuel' =>
    match p with
    | EmptyString => rout
    | String c t =>
      if isSlash c then
        (* empty path element *)
        cleanLoop fuel' rooted t rout dotdot
      else if isDot c && atElemEnd t then
        (* . element *)
        cleanLoop fuel' rooted t rout dotdot
      else if isDot c && startsWithDot t && atElemEnd (GoString.drop 1 t) then
        (* .. element: remove to last / *)
        let p' := GoString.drop 1 t in
        if (dotdot <? List.length rout)%nat then
          cleanLoop fuel' rooted p' (backUp rout dotdot) dotdot
        else if negb rooted then
          let rout1 := if (0 <? List.length rout)%nat then "/"%char :: rout else rout in
          let rout2 := "."%char :: "."%char :: rout1 in
          cleanLoop fuel' rooted p' rout2 (List.length rout2)
        else
          cleanLoop fuel' rooted p' rout dotdot
      else
        (* real path element: add slash if needed, copy element *)
        let rout1 :=
          if (rooted && negb (List.length rout =? 1)%nat)
             || (negb rooted && negb (List.length rout =? 0)%nat)
          then "/"%char :: rout else rout in
        let '(rout2, p') := copyElem p rout1 in
        cleanLoop fuel' rooted p' rout2 dotdot
    end
  end.

(** [path.Clean] *)
Definition Clean (path : string) : string :=
  match path with
  | EmptyString => "."
  | String c t =>
    let rooted := isSlash c in
    let out :=
      if rooted
      then cleanLoop (String.length path) rooted t ["/"%char] 1
      else cleanLoop (String.length path) rooted path [] 0 in
    match out with
    | [] => "."
    | _ => string_of_list_ascii (rev out)
    end
  end.

(** the buffer built by [Join]: the non-empty elements separated by [/] *)
Fixpoint joinBuf (buf : string) (elem : list string) : string :=
  match elem with
  | [] => buf
  | e :: rest =>
    if negb (String.length buf =? 0)%nat || negb (String.length e =? 0)%nat then
      let buf1 := if negb (String.length buf =? 0)%nat then buf +:+ "/" else buf in
      joinBuf (buf1 +:+ e) rest
    else joinBuf buf rest
  end.

(** [path.Join] *)
Definition Join (elem : list string) : string :=
  let size := list_sum (List.map String.length elem) in
  if (size =? 0)%nat then EmptyString else Clean (joinBuf EmptyString elem).

End path.

(** ** fmt *)

Module fmt.

(** [fmt.Sprintf] for formats whose verbs are [%s] and [%v] applied to
    string operands (an error operand is given as its [Error()] text),
    with no more operands than verbs. *)
Fixpoint Sprintf (format : string) (args : list string) : string :=
  match format with
  | EmptyString => EmptyString
  | String "%" (String v t) =>
    if (if decide (v = "s"%char) then true else false)
       || (if decide (v = "v"%char) then true else false) then
      match args with
      | a :: rest => a +:+ Sprintf t rest
      | [] => "%!" +:+ String v "(MISSING)" +:+ Sprintf t []
      end
    else if (if decide (v = "%"%char) then true else false) then
      String "%" (Sprintf t args)
    else String "%" (String v (Sprintf t args))
  | String c t => String c (Sprintf t args)
  end.

End fmt.

(** ** cmd: the [generate] commands *)

Module cmd.

(** An [error] is observed through its [Error()] text only. *)
Definition error := string.

Record FileInfo := mkFileInfo { IsDir : bool }.

(** The package-level variables the flags are bound to. *)
Record Flags := mkFlags {
  cn : string;
  force : bool;
  onboardingDatabasePath : string;
  deviceDatabasePath : string
}.

(** A command body is a tree of the calls it makes to its surroundings:
    [os.Stat], [x509.Generate] and [log.Fatalf] (which prints and exits
    with status 1, so it has no continuation). *)
Inductive Prog : Type :=
| Return
| log_Fatalf (msg : string)
| Panic (msg : string)
| os_Stat (name : string) (k : FileInfo + error -> Prog)
| x509_Generate (cn hosts certPath keyPath : string) (force : bool)
                (k : option error -> Prog).

Definition cnPattern : string := "[^a-zA-Z0-9\\.\\-]".

(** [regexp.MustCompile] panics when the pattern does not compile. *)
Definition MustCompile (pat : string) (k : regexp.Regexp -> Prog) : Prog :=
  match regexp.Compile pat with
  | Some re => k re
  | None => Panic ("regexp: Compile(" +:+ pat +:+ ")")
  end.

Definition generateOnboardCmd_Run (fl : Flags) : Prog :=
  if decide (onboardingDatabasePath fl = EmptyString) then
    log_Fatalf "onboarding path must be set"
  else
    os_Stat (onboardingDatabasePath fl) (fun r =>
      match r with
      | inr _ =>
        log_Fatalf (fmt.Sprintf "onboarding database path %s does not exist"
                                [onboardingDatabasePath fl])
      | inl fi =>
        if negb (IsDir fi) then
          log_Fatalf (fmt.Sprintf "onboarding database path %s is not a directory"
                                  [onboardingDatabasePath fl])
        else
          MustCompile "[^a-zA-Z0-9\\.\\-]" (fun re =>
            let cnSquashed := regexp.ReplaceAllString re (cn fl) "_" in
            let certPath :=
              path.Join [onboardingDatabasePath fl; fmt.Sprintf "%s.pem" [cnSquashed]] in
            let keyPath :=
              path.Join [onboardingDatabasePath fl; fmt.Sprintf "%s-key.pem" [cnSquashed]] in
            x509_Generate (cn fl) EmptyString certPath keyPath (force fl) (fun err =>
              match err with
              | Some e => log_Fatalf (fmt.Sprintf "error generating key/cert: %v" [e])
              | None => Return
              end))
      end).

Definition generateDeviceCmd_Run (fl : Flags) : Prog :=
  if decide (deviceDatabasePath fl = EmptyString) then
    log_Fatalf "device path must be set"
  else
    os_Stat (deviceDatabasePath fl) (fun r =>
      match r with
      | inr _ =>
        log_Fatalf (fmt.Sprintf "device database path %s does not exist"
                                [deviceDatabasePath fl])
      | inl fi =>
        if negb (IsDir fi) then
          log_Fatalf (fmt.Sprintf "device database path %s is not a directory"
                                  [deviceDatabasePath fl])
        else
          MustCompile "[^a-zA-Z0-9\\.\\-]" (fun re =>
            let cnSquashed := regexp.ReplaceAllString re (cn fl) "_" in
            let certPath :=
              path.Join [deviceDatabasePath fl; fmt.Sprintf "%s.pem" [cnSquashed]] in
            let keyPath :=
              path.Join [deviceDatabasePath fl; fmt.Sprintf "%s-key.pem" [cnSquashed]] in
            x509_Generate (cn fl) EmptyString certPath keyPath (force fl) (fun err =>
              match err with
              | Some e => log_Fatalf (fmt.Sprintf "error generating key/cert: %v" [e])
              | None => Return
              end))
      end).

(** The server command: [hosts], [certPath], [keyPath] and [force] are
    the package-level variables its flags are bound to. *)
Definition generateServerCmd_Run (hosts certPath keyPath : string) (force : bool) : Prog :=
  x509_Generate EmptyString hosts certPath keyPath force (fun err =>
    match err with
    | Some e => log_Fatalf (fmt.Sprintf "error generating key/cert: %v" [e])
    | None => Return
    end).

(** *** Running a command body against its surroundings *)

Record Env := mkEnv {
  stat : string -> FileInfo + error;
  generate : string -> string -> string -> string -> bool -> option error
}.

Inductive Event :=
| EvStat (name : string)
| EvGenerate (cn hosts certPath keyPath : string) (force : bool).

Inductive Outcome :=
| Returned
| Exited (logged : string)
| Panicked (msg : string).

(** the calls made, in order, and how the body ended *)
Fixpoint run (env : Env) (p : Prog) : list Event * Outcome :=
  match p with
  | Return => ([], Returned)
  | log_Fatalf msg => ([], Exited msg)
  | Panic msg => ([], Panicked msg)
  | os_Stat name k =>
    let '(tr, o) := run env (k (stat env name)) in (EvStat name :: tr, o)
  | x509_Generate c h cp kp f k =>
    let '(tr, o) := run env (k (generate env c h cp kp f)) in
    (EvGenerate c h cp kp f :: tr, o)
  end.

Definition isGenerate (e : Event) : bool :=
  match e with EvGenerate _ _ _ _ _ => true | EvStat _ => false end.

(** Squashing of a common name, as both bodies do it: the compiled
    pattern applied with [ReplaceAllString(cn, "_")].  The pattern
    compiles, so the value on [None] is never used. *)
Definition squash (cn : string) : string :=
  match regexp.Compile cnPattern with
  | Some re => regexp.ReplaceAllString re cn "_"
  | None => cn
  end.

(** The documented file pair of a common name under a directory:
    [dir/{name}.pem] and [dir/{name}-key.pem]. *)
Definition pemPair (dir name : string) : string * string :=
  (path.Join [dir; name +:+ ".pem"], path.Join [dir; name +:+ "-key.pem"]).

(** The precondition on a target database path fails: the path is empty,
    [os.Stat] reports an error for it, or it is not a directory. *)
Definition badPath (env : Env) (p : string) : Prop :=
  p = EmptyString \/ (exists e, stat env p = inr e)
  \/ (exists fi, stat env p = inl fi /\ IsDir fi = false).

(** surroundings with one directory, [onboard], and a file [notes.txt];
    generation succeeds *)
Definition demoEnv : Env :=
  mkEnv (fun name =>
           if decide (name = "onboard") then inl (mkFileInfo true)
           else if decide (name = "notes.txt") then inl (mkFileInfo false)
           else inr "no such file or directory")
        (fun _ _ _ _ _ => None).

(** The generation calls among the calls made. *)
Definition generateCalls (tr : list Event) : list Event := List.filter isGenerate tr.

(** A generation call that names a common name and hosts at once. *)
Definition mixesCnAndHosts (e : Event) : bool :=
  match e with
  | EvGenerate c h _ _ _ => negb (String.eqb c EmptyString) && negb (String.eqb h EmptyString)
  | EvStat _ => false
  end.

End cmd.

(** ** uuid *)

Module uuid.
Local Open Scope N_scope.

(** [uuid.UUID] is [[16]byte]; it is kept as the number its bytes spell,
    first byte most significant. *)
Definition UUID := N.

Definition byteOf (u : UUID) (i : nat) : N :=
  N.land (N.shiftr u (8 * N.of_nat (15 - i))) 0xFF.

Definition hexDigit (d : N) : ascii :=
  default "0"%char (String.get (N.to_nat d) "0123456789abcdef").

Definition hexByte (b : N) : string :=
  String (hexDigit (N.shiftr b 4)) (String (hexDigit (N.land b 0xF)) EmptyString).

Definition hexBytes (u : UUID) (from to : nat) : string :=
  fold_right (fun i acc => hexByte (byteOf u i) +:+ acc) EmptyString
             (seq from (to - from)).

(** [UUID.String]: the canonical form xxxxxxxx-xxxx-xxxx-xxxx-xxxxxxxxxxxx *)
Definition String (u : UUID) : string :=
  hexBytes u 0 4 +:+ "-" +:+ hexBytes u 4 6 +:+ "-" +:+ hexBytes u 6 8 +:+ "-"
    +:+ hexBytes u 8 10 +:+ "-" +:+ hexBytes u 10 16.

End uuid.

(** ** encoding/json *)

Module json.
Local Open Scope N_scope.

Definition quote : ascii := ascii_of_nat 34.
Definition backslash : ascii := ascii_of_nat 92.

(** A string literal with each apostrophe standing for a double quote. *)
Definition dq (s : string) : string :=
  GoString.map (fun c => if decide (c = "'"%char) then quote else c) s.

(** [htmlSafeSet]: the ASCII bytes copied as they are *)
Definition htmlSafe (b : N) : bool :=
  (0x20 <=? b) && (b <? 0x80) &&
  negb ((b =? 0x22) || (b =? 0x5C) || (b =? 0x3C) || (b =? 0x3E) || (b =? 0x26)).

Definition hex (d : N) : ascii := uuid.hexDigit d.

(** the escape written for an ASCII byte outside [htmlSafeSet] *)
Definition escapeByte (b : N) : string :=
  if (b =? 0x5C) || (b =? 0x22) then String backslash (String (ascii_of_N b) EmptyString)
  else if b =? 0x08 then String backslash "b"
  else if b =? 0x0C then String backslash "f"
  else if b =? 0x0A then String backslash "n"
  else if b =? 0x0D then String backslash "r"
  else if b =? 0x09 then String backslash "t"
  else String backslash ("u00" +:+ String (hex (N.shiftr b 4)) (String (hex (N.land b 0xF)) EmptyString)).

(** the loop of [appendString] with [escapeHTML] set; [src] is what is left *)
Fixpoint appendStringBody (fuel : nat) (src : string) : string :=
  match fuel with
  | O => EmptyString
  | S fuel' =>
    match src with
    | EmptyString => EmptyString
    | String c t =>
      let b := GoString.byte c in
      if b <? utf8.RuneSelf then
        (if htmlSafe b then String c EmptyString else escapeByte b)
          +:+ appendStringBody fuel' t
      else
        let '(r, size) := utf8.DecodeRuneInString src in
        if (r =? utf8.RuneError) && (size =? 1)%nat then
          String backslash "ufffd" +:+ appendStringBody fuel' (GoString.drop size src)
        else if (r =? 0x2028) || (r =? 0x2029) then
          String backslash ("u202" +:+ String (hex (N.land r 0xF)) EmptyString)
            +:+ appendStringBody fuel' (GoString.drop size src)
        else
          GoString.take size src +:+ appendStringBody fuel' (GoString.drop size src)
    end
  end.

(** a Go string as a JSON string *)
Definition encString (s : string) : string :=
  String quote (appendStringBody (String.length s) s +:+ String quote EmptyString).

Definition encBool (b : bool) : string := if b then "true" else "false".

Definition encUint (n : N) : string := NilEmpty.string_of_uint (N.to_uint n).

(** the key of a struct field, followed by the colon *)
Definition key (name : string) : string :=
  String quote (name +:+ String quote ":").

Fixpoint joinComma (l : list string) : string :=
  match l with
  | [] => EmptyString
  | [x] => x
  | x :: rest => x +:+ "," +:+ joinComma rest
  end.

(** a pointer: [null] when nil *)
Definition encPtr {A} (enc : A -> string) (p : option A) : string :=
  match p with
  | None => "null"
  | Some x => enc x
  end.

(** a slice: [null] when nil, an array otherwise *)
Definition encSlice {A} (enc : A -> string) (s : option (list A)) : string :=
  match s with
  | None => "null"
  | Some l => "[" +:+ joinComma (List.map enc l) +:+ "]"
  end.

(** [len(s)] of a slice *)
Definition lenSlice {A} (s : option (list A)) : nat :=
  match s with
  | None => 0
  | Some l => List.length l
  end.

End json.

(** ** proto: the wire format of a message of string and message fields *)

Module proto.
Local Open Scope N_scope.

Fixpoint varint (fuel : nat) (n : N) : string :=
  match fuel with
  | O => EmptyString
  | S fuel' =>
    if n <? 0x80 then String (ascii_of_N n) EmptyString
    else String (ascii_of_N (N.lor (N.land n 0x7F) 0x80)) (varint fuel' (N.shiftr n 7))
  end.

(** a length-delimited field (wire type 2): tag, length, payload *)
Definition bytesField (num : N) (payload : string) : string :=
  varint 10 (N.lor (N.shiftl num 3) 2) +:+ varint 10 (N.of_nat (String.length payload)) +:+ payload.

(** a [string] field of a proto3 message: left out when empty *)
Definition stringField (num : N) (s : string) : string :=
  match s with
  | EmptyString => EmptyString
  | _ => bytesField num s
  end.

(** a message field: left out when nil *)
Definition messageField (num : N) (m : option string) : string :=
  match m with
  | None => EmptyString
  | Some payload => bytesField num payload
  end.

End proto.

(** ** common: the per-device storage aggregate, the attestation records
    and the base-object constructors *)

Module common.

(** A [BigData] value is an interface value: [nil], or a reference to
    the object that implements it. *)
Definition loc := positive.
Definition BigData := option loc.

Section DeviceStorage.

(** What lies behind the [BigData] interface belongs to the storage
    backends: [Stream] is the state of one such object (the sum of the
    implementations' states when there are several), [bd_Write] its
    [Write] method, which acts on the object it is called on. *)
Variable Stream : Type.
Variable BackendError : Type.
Variable Certificate : Type.
Variable bd_Write : Stream -> string -> Stream * (Z * option BackendError).

(** An [error] is either made here, by [errors.New] or [fmt.Errorf]
    (a fresh object carrying its text), or is one a backend made. *)
Inductive error :=
| errorString (msg : string)
| backendError (e : BackendError).

Definition errors_New (msg : string) : error := errorString msg.

Definition fmt_Errorf (format : string) (args : list string) : error :=
  errorString (fmt.Sprintf format args).

Record DeviceStorage := mkDeviceStorage {
  Cert : option Certificate;
  Info : BigData;
  Metrics : BigData;
  Logs : BigData;
  Requests : BigData;
  FlowMessage : BigData;
  Certs : BigData;
  AppLogs : option (gmap uuid.UUID BigData);
  CurrentLog : Z;
  Config : string;
  AttestCerts : string;
  StorageKeys : string;
  Serial : string;
  Onboard : option Certificate;
  Options : string
}.

(** The state a method of [*DeviceStorage] runs in: the aggregate
    itself, the stream objects by reference, and the record of the
    [Write] calls made so far. *)
Record State := mkState {
  dev : DeviceStorage;
  heap : loc -> Stream;
  writes : list (loc * string)
}.

Inductive Result (A : Type) :=
| Ok (a : A)
| Panicked (msg : string).
Arguments Ok {A} a.
Arguments Panicked {A} msg.

Definition M (A : Type) : Type := State -> Result A * State.

Definition ret {A} (a : A) : M A := fun st => (Ok a, st).

Definition bind {A B} (m : M A) (k : A -> M B) : M B :=
  fun st =>
    match m st with
    | (Ok a, st') => k a st'
    | (Panicked msg, st') => (Panicked msg, st')
    end.

Definition panic {A} (msg : string) : M A := fun st => (Panicked msg, st).

(** the receiver [d] *)
Definition this : M DeviceStorage := fun st => (Ok (dev st), st).

Local Notation "x <- m ;; k" := (bind m (fun x => k))
  (at level 100, m at next level, right associativity).

(** [bd.Write(b)]: a method call on a nil interface value panics. *)
Definition Write (bd : BigData) (b : string) : M (Z * option error) :=
  match bd with
  | None => panic "invalid memory address or nil pointer dereference"
  | Some l => fun st =>
    let '(s', (n, err)) := bd_Write (heap st l) b in
    (Ok (n, backendError <$> err),
     mkState (dev st) (<[l := s']> (heap st)) (writes st ++ [(l, b)]))
  end.

Definition AddLogs (b : string) : M (option error) :=
  d <- this;;
  match Logs d with
  | None => ret (Some (errors_New "AddLog: Logs struct not yet initialized"))
  | Some _ =>
    r <- Write (Logs d) b;;
    ret (snd r)
  end.

Definition AddAppLog (instanceID : uuid.UUID) (b : string) : M (option error) :=
  d <- this;;
  match AppLogs d with
  | None => ret (Some (fmt_Errorf "AddAppLog: AppLogs struct not yet initialized" []))
  | Some appLogs =>
    match appLogs !! instanceID with
    | None =>
      ret (Some (fmt_Errorf "AddAppLog: AppLogs for instance %s not yet initialized"
                            [uuid.String instanceID]))
    | Some bd =>
      r <- Write bd b;;
      ret (snd r)
    end
  end.

Definition AddInfo (b : string) : M (option error) :=
  d <- this;;
  match Info d with
  | None => ret (Some (errors_New "AddInfo: Info struct not yet initialized"))
  | Some _ =>
    r <- Write (Info d) b;;
    ret (snd r)
  end.

Definition AddMetrics (b : string) : M (option error) :=
  d <- this;;
  match Metrics d with
  | None => ret (Some (errors_New "AddMetrics: Metrics struct not yet initialized"))
  | Some _ =>
    r <- Write (Metrics d) b;;
    ret (snd r)
  end.

Definition AddRequest (b : string) : M (option error) :=
  d <- this;;
  match Requests d with
  | None => ret (Some (errors_New "AddRequest: Requests struct not yet initialized"))
  | Some _ =>
    r <- Write (Requests d) b;;
    ret (snd r)
  end.

Definition AddFlowRecord (b : string) : M (option error) :=
  d <- this;;
  match FlowMessage d with
  | None => ret (Some (errors_New "AddFlowRecord: FlowMessage struct not yet initialized"))
  | Some _ =>
    r <- Write (FlowMessage d) b;;
    ret (snd r)
  end.

(** The stream object an [AddAppLog] call is aimed at, if any. *)
Definition appLogTarget (d : DeviceStorage) (instanceID : uuid.UUID) : BigData :=
  match AppLogs d with
  | None => None
  | Some appLogs => default None (appLogs !! instanceID)
  end.

(** What the [AddX] method [op] on the stream field [field] is to do:
    with the field nil it returns the error made from [msg] and nothing
    else happens, it returns that error in no other case, and with the
    field set it calls that stream's [Write] once on the payload and
    returns the error of that call. *)
Definition addSpec (field : DeviceStorage -> BigData) (msg : string)
    (op : string -> M (option error)) : Prop :=
  forall (st : State) (b : string),
    (field (dev st) = None -> op b st = (Ok (Some (errorString msg)), st)) /\
    (fst (op b st) = Ok (Some (errorString msg)) -> field (dev st) = None) /\
    (forall l, field (dev st) = Some l ->
       op b st =
       (Ok (backendError <$> snd (snd (bd_Write (heap st l) b))),
        mkState (dev st)
                (<[l := fst (bd_Write (heap st l) b)]> (heap st))
                (writes st ++ [(l, b)]))).

(** A call leaves the aggregate as it was, and every stream object
    other than the one it is aimed at. *)
Definition frames {A} (target : DeviceStorage -> BigData) (op : M A) : Prop :=
  forall (st : State),
    dev (snd (op st)) = dev st /\
    (forall l, target (dev st) <> Some l -> heap (snd (op st)) l = heap st l).

End DeviceStorage.

Arguments Ok {A} a.
Arguments Panicked {A} msg.
Arguments errorString {BackendError} msg.
Arguments backendError {BackendError} e.
Arguments mkDeviceStorage {Certificate}.
Arguments mkState {Stream Certificate}.
Arguments dev {Stream Certificate}.
Arguments heap {Stream Certificate}.
Arguments writes {Stream Certificate}.
Arguments AppLogs {Certificate}.
Arguments Logs {Certificate}.
Arguments Info {Certificate}.
Arguments Metrics {Certificate}.
Arguments Requests {Certificate}.
Arguments FlowMessage {Certificate}.
Arguments appLogTarget {Certificate}.
Arguments AddLogs {Stream BackendError Certificate}.
Arguments AddAppLog {Stream BackendError Certificate}.
Arguments AddInfo {Stream BackendError Certificate}.
Arguments AddMetrics {Stream BackendError Certificate}.
Arguments AddRequest {Stream BackendError Certificate}.
Arguments AddFlowRecord {Stream BackendError Certificate}.
Arguments fmt_Errorf {BackendError}.
Arguments addSpec {Stream BackendError Certificate}.
Arguments frames {Stream Certificate A}.

(** *** An in-memory backend and a provisioned device, for examples *)

(** a stream is the list of its chunks; an empty payload is refused *)
Definition memWrite (s : list string) (b : string) : list string * (Z * option string) :=
  match b with
  | EmptyString => (s, (0%Z, Some "empty chunk"))
  | _ => ((s ++ [b])%list, (Z.of_nat (String.length b), None))
  end.

(** every stream provisioned; app instance 7 has a stream, app instance 9
    is entered in the map with a nil stream *)
Definition demoDevice : DeviceStorage unit :=
  mkDeviceStorage None (Some 1%positive) (Some 2%positive) (Some 3%positive)
    (Some 4%positive) (Some 5%positive) (Some 6%positive)
    (Some (<[7%N := Some 8%positive]> (<[9%N := None]> ∅)))
    0 EmptyString EmptyString EmptyString EmptyString None EmptyString.

Definition demoState : State (list string) unit :=
  mkState demoDevice (fun _ => []) [].

(** a device with the streams of two app instances, 7 and 11 *)
Definition demoTwoApps : State (list string) unit :=
  mkState
    (mkDeviceStorage None None None None None None None
       (Some (<[7%N := Some 8%positive]> (<[11%N := Some 12%positive]> ∅)))
       0 EmptyString EmptyString EmptyString EmptyString None EmptyString)
    (fun _ => []) [].

(** *** Attestation records *)

Definition ptr (A : Type) : Type := option A.
Definition slice (A : Type) : Type := option (list A).

Record PCRValue := mkPCRValue {
  Index : N;
  Value : string
}.

Record PCRTemplate := mkPCRTemplate {
  EveVersion : string;
  FirmwareVersion : string;
  PCRValues : slice (ptr PCRValue)
}.

Record GlobalOptions := mkGlobalOptions {
  EnforceTemplateAttestation : bool;
  PCRTemplates : slice (ptr PCRTemplate)
}.

(** [json.Marshal] of the records, field by field in declaration order
    under the names of their [json] tags *)
Definition marshalPCRValue (v : PCRValue) : string :=
  "{" +:+ json.key "index" +:+ json.encUint (Index v)
      +:+ "," +:+ json.key "value" +:+ json.encString (Value v) +:+ "}".

Definition marshalPCRTemplate (t : PCRTemplate) : string :=
  "{" +:+ json.key "eveVersion" +:+ json.encString (EveVersion t)
      +:+ "," +:+ json.key "firmwareVersion" +:+ json.encString (FirmwareVersion t)
      +:+ "," +:+ json.key "PCRValues"
      +:+ json.encSlice (json.encPtr marshalPCRValue) (PCRValues t) +:+ "}".

Definition marshalGlobalOptions (g : GlobalOptions) : string :=
  "{" +:+ json.key "enforceTemplateAttestation" +:+ json.encBool (EnforceTemplateAttestation g)
      +:+ "," +:+ json.key "PCRTemplates"
      +:+ json.encSlice (json.encPtr marshalPCRTemplate) (PCRTemplates g) +:+ "}".

(** The documented empty states, written out. *)
Definition emptyGlobalOptionsJSON : string :=
  json.dq "{'enforceTemplateAttestation':false,'PCRTemplates':null}".

Definition emptyDeviceOptionsJSON : string :=
  json.dq "{'nonce':'','integrityToken':'','receivedPCRTemplate':null,'attested':false}".

(** [&GlobalOptions{}] *)
Definition zeroGlobalOptions : GlobalOptions := mkGlobalOptions false None.

Definition CreateBaseGlobalOptions : string := marshalGlobalOptions zeroGlobalOptions.

Section DeviceOptions.

(** [attest.TpmEventLogEntry] belongs to the EVE API; its JSON form is
    whatever [encoding/json] gives that record. *)
Variable TpmEventLogEntry : Type.
Variable marshalTpmEventLogEntry : TpmEventLogEntry -> string.

Record DeviceOptions := mkDeviceOptions {
  Nonce : string;
  IntegrityToken : string;
  ReceivedPCRTemplate : ptr PCRTemplate;
  Attested : bool;
  EventLog : slice (ptr TpmEventLogEntry)
}.

(** [eventLog] carries [omitempty]: it is left out when its length is 0 *)
Definition marshalDeviceOptions (d : DeviceOptions) : string :=
  "{" +:+ json.key "nonce" +:+ json.encString (Nonce d)
      +:+ "," +:+ json.key "integrityToken" +:+ json.encString (IntegrityToken d)
      +:+ "," +:+ json.key "receivedPCRTemplate"
      +:+ json.encPtr marshalPCRTemplate (ReceivedPCRTemplate d)
      +:+ "," +:+ json.key "attested" +:+ json.encBool (Attested d)
      +:+ (if (json.lenSlice (EventLog d) =? 0)%nat then EmptyString
           else "," +:+ json.key "eventLog"
                +:+ json.encSlice (json.encPtr marshalTpmEventLogEntry) (EventLog d))
      +:+ "}".

(** [&DeviceOptions{}] *)
Definition zeroDeviceOptions : DeviceOptions :=
  mkDeviceOptions EmptyString EmptyString None false None.

Definition CreateBaseDeviceOptions (_ : uuid.UUID) : string :=
  marshalDeviceOptions zeroDeviceOptions.

End DeviceOptions.

Section BaseConfig.

(** The field numbers of [config.EdgeDevConfig.id] and of
    [config.UUIDandVersion.uuid] and [.version] are fixed by the EVE API
    schema. *)
Variable numId numUuid numVersion : N.

Record UUIDandVersion := mkUUIDandVersion {
  Uuid : string;
  Version : string
}.

(** the one field of [config.EdgeDevConfig] that is set here *)
Record EdgeDevConfig := mkEdgeDevConfig {
  Id : ptr UUIDandVersion
}.

Definition marshalUUIDandVersion (m : UUIDandVersion) : string :=
  proto.stringField numUuid (Uuid m) +:+ proto.stringField numVersion (Version m).

Definition marshalEdgeDevConfig (c : EdgeDevConfig) : string :=
  proto.messageField numId (marshalUUIDandVersion <$> Id c).

Definition CreateBaseConfig (u : uuid.UUID) : string :=
  let conf := mkEdgeDevConfig (Some (mkUUIDandVersion (uuid.String u) "4")) in
  marshalEdgeDevConfig conf.

End BaseConfig.

End common.

(** ** The attestation policy engine *)

Module attestation.
Import common.

(** the entries a slice of pointers holds, in order *)
Definition entries {A} (s : slice (ptr A)) : list A :=
  omap id (default [] s).

Definition wildcard : string := "*".

(** Modelled from the spec: [Evaluate] of the attestation policy engine,
    of which package [common] declares the records only.  The value a
    reported template carries at a PCR index: *)
Definition reportedValue (reported : PCRTemplate) (index : N) : option string :=
  Value <$> List.find (fun rv => N.eqb (Index rv) index) (entries (PCRValues reported)).

(** Modelled from the spec: the [Evaluate] step is missing; a template's
    PCRValue is satisfied by exact string equality with the reported value
    at the same index, or when the template value is the wildcard. *)
Definition pcrSatisfied (reported : PCRTemplate) (tv : PCRValue) : bool :=
  String.eqb (Value tv) wildcard ||
  match reportedValue reported (Index tv) with
  | Some v => String.eqb v (Value tv)
  | None => false
  end.

(** Modelled from the spec: the [Evaluate] step is missing; a template
    matches when both versions are equal and every PCRValue of the
    template is satisfied. *)
Definition templateMatches (reported t : PCRTemplate) : bool :=
  String.eqb (EveVersion t) (EveVersion reported) &&
  String.eqb (FirmwareVersion t) (FirmwareVersion reported) &&
  forallb (pcrSatisfied reported) (entries (PCRValues t)).

(** Modelled from the spec: the [Evaluate] step is missing; the scan of
    the templates in list order, stopping at the first match. *)
Fixpoint firstMatch (reported : PCRTemplate) (ts : list PCRTemplate) : option PCRTemplate :=
  match ts with
  | [] => None
  | t :: rest => if templateMatches reported t then Some t else firstMatch reported rest
  end.

Record Verdict := mkVerdict {
  matched : bool;
  winner : option PCRTemplate
}.

(** Modelled from the spec: [Evaluate] of the policy engine is missing;
    with enforcement off it reports a match unconditionally, otherwise it
    scans [globalOptions.templates] in order. *)
Definition Evaluate (g : GlobalOptions) (reported : PCRTemplate) : Verdict :=
  if EnforceTemplateAttestation g then
    let w := firstMatch reported (entries (PCRTemplates g)) in
    mkVerdict (match w with Some _ => true | None => false end) w
  else mkVerdict true None.

(** Satisfaction and matching as propositions. *)
Definition Satisfied (reported : PCRTemplate) (tv : PCRValue) : Prop :=
  Value tv = wildcard \/ reportedValue reported (Index tv) = Some (Value tv).

Definition Matches (reported t : PCRTemplate) : Prop :=
  EveVersion t = EveVersion reported /\
  FirmwareVersion t = FirmwareVersion reported /\
  Forall (Satisfied reported) (entries (PCRValues t)).

(** The example of the spec: a template with a wildcard at index 0, a
    looser second template, and two reported measurements. *)
Definition demoTemplate : PCRTemplate :=
  mkPCRTemplate "1.0" "2.0"
    (Some [Some (mkPCRValue 0 "*"); Some (mkPCRValue 1 "abc")]).

Definition demoLooseTemplate : PCRTemplate :=
  mkPCRTemplate "1.0" "2.0" (Some [Some (mkPCRValue 0 "*")]).

Definition demoReported : PCRTemplate :=
  mkPCRTemplate "1.0" "2.0"
    (Some [Some (mkPCRValue 0 "zzz"); Some (mkPCRValue 1 "abc")]).

Definition demoReportedOther : PCRTemplate :=
  mkPCRTemplate "1.0" "2.0"
    (Some [Some (mkPCRValue 0 "zzz"); Some (mkPCRValue 1 "xyz")]).

Definition demoGlobalOptions : GlobalOptions :=
  mkGlobalOptions true (Some [Some demoTemplate; Some demoLooseTemplate]).

End attestation.

(** ** Auxiliary definitions for the properties below *)

Section Aux.
Local Open Scope N_scope.

(** every value below 256, for checks that run over all bytes *)
Definition allBytes : list N := List.map N.of_nat (seq 0 256).

(** the leading byte of a two-, three- or four-byte sequence carries
    enough of the code point, together with the accepted range of the
    second byte, to put the rune at or above 0x80 *)
Definition leadCheck (b0 : N) : bool :=
  let x := utf8.first b0 in
  (utf8.as_ <=? x) ||
  forallb (fun b1 =>
    let accept := utf8.acceptRanges (N.shiftr x 4) in
    (b1 <? fst accept) || (snd accept <? b1) ||
    match N.land x 7 with
    | 2 => 0x80 <=? N.shiftl (N.land b0 utf8.mask2) 6
    | 3 => 0x80 <=? N.lor (N.shiftl (N.land b0 utf8.mask3) 12)
                          (N.shiftl (N.land b1 utf8.maskx) 6)
    | 4 => 0x80 <=? N.lor (N.shiftl (N.land b0 utf8.mask4) 18)
                          (N.shiftl (N.land b1 utf8.maskx) 12)
    | _ => false
    end) allBytes.

(** what the pattern of the two commands compiles to *)
Definition cnRegexp : regexp.Regexp :=
  regexp.mkRegexp true
    [(0x61, 0x7A); (0x41, 0x5A); (0x30, 0x39); (0x5C, 0x5C); (0x2E, 0x2E);
     (0x5C, 0x5C); (0x2D, 0x2D)].

(** the bytes the compiled class keeps: letters, digits, dot, hyphen and
    the backslash *)
Definition keptByte (b : N) : bool :=
  regexp.isalnum b || (b =? 0x2E) || (b =? 0x2D) || (b =? 0x5C).

Definition underscore : ascii := "_"%char.

Definition squashByte (c : ascii) : ascii :=
  if keptByte (GoString.byte c) then c else underscore.

(** the bytes a squashed name is made of *)
Definition squashedByte (c : ascii) : bool :=
  keptByte (GoString.byte c) || (GoString.byte c =? 0x5F).

(** a string that is empty or starts with an ASCII byte *)
Definition asciiHead (t : string) : bool :=
  match t with
  | EmptyString => true
  | String c _ => GoString.byte c <? 0x80
  end.

Definition isAscii (c : ascii) : bool := GoString.byte c <? 0x80.

(** a byte of the class the pattern is after: letter, digit, dot, hyphen *)
Definition classByte (c : ascii) : bool :=
  regexp.isalnum (GoString.byte c) || (GoString.byte c =? 0x2E) || (GoString.byte c =? 0x2D).

(** a string without a slash *)
Definition noSlash (s : string) : bool :=
  GoString.all (fun c => negb (path.isSlash c)) s.

(** a path element proper: not empty, without a slash, and neither [.]
    nor [..] *)
Definition properElem (s : string) : bool :=
  noSlash s && negb (String.eqb s EmptyString) && negb (String.eqb s ".")
  && negb (String.eqb s "..").

(** how a body ends once generation has answered *)
Definition afterGenerate (err : option cmd.error) : cmd.Outcome :=
  match err with
  | None => cmd.Returned
  | Some e => cmd.Exited ("error generating key/cert: " +:+ e)
  end.

(** no two bytes are written as the same pair of hex digits *)
Definition hexByteInjective : bool :=
  forallb (fun b =>
    forallb (fun b' => implb (String.eqb (uuid.hexByte b) (uuid.hexByte b')) (b =? b'))
            allBytes) allBytes.

(** a UUID proper: the number of sixteen bytes *)
Definition validUUID (u : uuid.UUID) : Prop := u < 2 ^ 128.

End Aux.

Ltac ev e := let v := eval vm_compute in e in change e with v.

(** * Properties *)

(** ** Bytes and runes *)

Section Bytes.
Local Open Scope N_scope.

Lemma lor_ge_l (a b : N) : a <= N.lor a b.
Proof.
  assert (H : N.lor a b = a + N.ldiff b a).
  { rewrite N.add_nocarry_lxor.
    - apply N.bits_inj; intro n.
      rewrite N.lor_spec, N.lxor_spec, N.ldiff_spec.
      destruct (N.testbit a n), (N.testbit b n); reflexivity.
    - apply N.bits_inj; intro n.
      rewrite N.land_spec, N.ldiff_spec, N.bits_0.
      destruct (N.testbit a n), (N.testbit b n); reflexivity. }
  rewrite H. lia.
Qed.


Lemma allBytes_complete (b : N) : b < 256 -> In b allBytes.
Proof.
  intro H. unfold allBytes. apply in_map_iff.
  exists (N.to_nat b). split; [apply N2Nat.id | apply in_seq; lia].
Qed.

Lemma forall_bytes (P : N -> bool) :
  forallb P allBytes = true -> forall b, b < 256 -> P b = true.
Proof.
  intros H b Hb. rewrite forallb_forall in H. apply H, allBytes_complete, Hb.
Qed.

Lemma byte_lt_256 (c : ascii) : GoString.byte c < 256.
Proof. apply N_ascii_bounded. Qed.

Lemma byte_inj (c d : ascii) : GoString.byte c = GoString.byte d -> c = d.
Proof.
  unfold GoString.byte; intro H.
  rewrite <- (ascii_N_embedding c), <- (ascii_N_embedding d). now rewrite H.
Qed.

End Bytes.

Section Utf8.
Local Open Scope N_scope.

Lemma drop_length (n : nat) (s : string) :
  String.length (GoString.drop n s) = (String.length s - n)%nat.
Proof.
  revert s; induction n as [|n IH]; intros [|c t]; simpl; try lia. apply IH.
Qed.

Lemma decode_ascii (c : ascii) (t : string) :
  GoString.byte c < 0x80 ->
  utf8.DecodeRuneInString (String c t) = (GoString.byte c, 1%nat).
Proof.
  intro H. unfold utf8.DecodeRuneInString, utf8.first.
  apply N.ltb_lt in H. rewrite H. reflexivity.
Qed.


Lemma leadCheck_all : forallb leadCheck allBytes = true.
Proof. vm_compute. reflexivity. Qed.

Lemma decode_nonascii (c : ascii) (t : string) :
  0x80 <= GoString.byte c ->
  0x80 <= fst (utf8.DecodeRuneInString (String c t)) /\
  (1 <= snd (utf8.DecodeRuneInString (String c t)))%nat.
Proof.
  intro H.
  pose proof (forall_bytes _ leadCheck_all _ (byte_lt_256 c)) as L.
  unfold leadCheck in L. unfold utf8.DecodeRuneInString.
  set (b0 := GoString.byte c) in *. set (x := utf8.first b0) in *.
  destruct (utf8.as_ <=? x) eqn:Ex.
  - assert (Hx : x = utf8.xx).
    { subst x. unfold utf8.first in *.
      repeat match goal with
             | |- context [if ?e then _ else _] => destruct e eqn:?
             | H : context [if ?e then _ else _] |- _ => destruct e eqn:?
             end; try reflexivity; try discriminate.
      apply N.ltb_lt in Heqb. lia. }
    rewrite Hx. simpl. split; [vm_compute; discriminate | lia].
  - rewrite orb_false_l in L. rewrite forallb_forall in L.
    destruct (N.of_nat (String.length (String c t)) <? N.land x 7);
      [simpl; split; [vm_compute; discriminate | lia] |].
    destruct t as [|c1 t1]; [simpl; split; [vm_compute; discriminate | lia] |].
    specialize (L _ (allBytes_complete _ (byte_lt_256 c1))).
    cbv zeta in L.
    set (b1 := GoString.byte c1) in *.
    destruct ((b1 <? fst (utf8.acceptRanges (N.shiftr x 4)))
              || (snd (utf8.acceptRanges (N.shiftr x 4)) <? b1));
      [simpl; split; [vm_compute; discriminate | lia] |].
    rewrite orb_false_l in L.
    assert (Hsz : N.land x 7 = 2 \/ N.land x 7 = 3 \/ N.land x 7 = 4).
    { destruct (N.land x 7) as [|p]; [discriminate|].
      destruct p as [[[|[]|]|[[]|[]|]|]|[[|[]|]|[[]|[]|]|]|]; try discriminate; auto. }
    destruct Hsz as [Hsz|[Hsz|Hsz]]; rewrite Hsz in *; simpl.
    + apply N.leb_le in L. split; [|lia].
      etransitivity; [exact L | apply lor_ge_l].
    + apply N.leb_le in L.
      destruct t1 as [|c2 t2]; [simpl; split; [vm_compute; discriminate | lia] |].
      destruct ((GoString.byte c2 <? utf8.locb) || (utf8.hicb <? GoString.byte c2));
        [simpl; split; [vm_compute; discriminate | lia] |].
      simpl. split; [|lia].
      etransitivity; [exact L | apply lor_ge_l].
    + apply N.leb_le in L.
      destruct t1 as [|c2 t2]; [simpl; split; [vm_compute; discriminate | lia] |].
      destruct ((GoString.byte c2 <? utf8.locb) || (utf8.hicb <? GoString.byte c2));
        [simpl; split; [vm_compute; discriminate | lia] |].
      destruct t2 as [|c3 t3]; [simpl; split; [vm_compute; discriminate | lia] |].
      destruct ((GoString.byte c3 <? utf8.locb) || (utf8.hicb <? GoString.byte c3));
        [simpl; split; [vm_compute; discriminate | lia] |].
      simpl. split; [|lia].
      etransitivity; [exact L |].
      etransitivity; [apply lor_ge_l |]. apply lor_ge_l.
Qed.

End Utf8.

(** ** Squashing of common names *)

Section Squash.
Local Open Scope N_scope.


Lemma compile_cnPattern : regexp.Compile cmd.cnPattern = Some cnRegexp.
Proof. vm_compute. reflexivity. Qed.


Lemma matchRune_cnRegexp (r : N) :
  regexp.matchRune cnRegexp r = negb (keptByte r).
Proof.
  unfold regexp.matchRune, regexp.inRanges, keptByte, regexp.isalnum, cnRegexp.
  cbn [regexp.negated regexp.ranges existsb fst snd].
  apply eq_true_iff_eq.
  rewrite xorb_true_l, !negb_true_iff, <- !not_true_iff_false.
  rewrite !orb_true_iff, !andb_true_iff, !N.leb_le, !N.eqb_eq.
  lia.
Qed.

Lemma keptByte_lt (b : N) : keptByte b = true -> b < 0x80.
Proof.
  unfold keptByte, regexp.isalnum.
  rewrite !orb_true_iff, !andb_true_iff, !N.leb_le, !N.eqb_eq. lia.
Qed.

Lemma squashedByte_lt (c : ascii) : squashedByte c = true -> GoString.byte c < 0x80.
Proof.
  unfold squashedByte. rewrite orb_true_iff, N.eqb_eq.
  intros [H|H]; [now apply keptByte_lt | lia].
Qed.

Lemma squashByte_squashed (c : ascii) : squashedByte (squashByte c) = true.
Proof.
  unfold squashByte, squashedByte.
  destruct (keptByte (GoString.byte c)) eqn:E; [now rewrite E | reflexivity].
Qed.

Lemma squashByte_fixed (c : ascii) : squashedByte c = true -> squashByte c = c.
Proof.
  unfold squashByte, squashedByte. rewrite orb_true_iff, N.eqb_eq.
  destruct (keptByte (GoString.byte c)); [reflexivity|].
  intros [H|H]; [discriminate|].
  symmetry. apply byte_inj. exact H.
Qed.

(** one turn of the scan on an ASCII byte *)
Lemma replaceAll_ascii_step (fuel : nat) (c : ascii) (t : string) :
  GoString.byte c < 0x80 ->
  regexp.replaceAll cnRegexp "_" (S fuel) (String c t)
  = String (squashByte c) (regexp.replaceAll cnRegexp "_" fuel t).
Proof.
  intro H. cbn [regexp.replaceAll].
  rewrite (decode_ascii c t H), matchRune_cnRegexp.
  unfold squashByte. destruct (keptByte (GoString.byte c)); reflexivity.
Qed.

(** one turn of the scan on any other byte: the rune it starts lies
    outside the class whatever it is, and becomes one underscore *)
Lemma replaceAll_other_step (fuel : nat) (c : ascii) (t : string) :
  0x80 <= GoString.byte c ->
  exists w, (1 <= w)%nat /\
    regexp.replaceAll cnRegexp "_" (S fuel) (String c t)
    = String underscore (regexp.replaceAll cnRegexp "_" fuel (GoString.drop w (String c t))).
Proof.
  intro H. cbn [regexp.replaceAll].
  destruct (decode_nonascii c t H) as [Hr Hw].
  destruct (utf8.DecodeRuneInString (String c t)) as [r w]. cbn [fst snd] in *.
  exists w. split; [exact Hw|].
  rewrite matchRune_cnRegexp.
  destruct (keptByte r) eqn:E; [apply keptByte_lt in E; lia | reflexivity].
Qed.

Lemma replaceAll_squashed (fuel : nat) :
  forall src, (String.length src <= fuel)%nat ->
  GoString.all squashedByte (regexp.replaceAll cnRegexp "_" fuel src) = true.
Proof.
  induction fuel as [|fuel IH]; intros [|c t] Hlen; simpl in Hlen; try reflexivity; try lia.
  destruct (N.lt_ge_cases (GoString.byte c) 0x80) as [Hc|Hc].
  - rewrite (replaceAll_ascii_step _ _ _ Hc). cbn [GoString.all].
    rewrite squashByte_squashed. apply IH. lia.
  - destruct (replaceAll_other_step fuel c t Hc) as (w & Hw & ->).
    cbn [GoString.all]. apply IH.
    rewrite drop_length. simpl. lia.
Qed.

Lemma replaceAll_fixed (fuel : nat) :
  forall src, (String.length src <= fuel)%nat ->
  GoString.all squashedByte src = true ->
  regexp.replaceAll cnRegexp "_" fuel src = src.
Proof.
  induction fuel as [|fuel IH]; intros [|c t] Hlen Hall; simpl in Hlen; try reflexivity; try lia.
  cbn [GoString.all] in Hall. apply andb_true_iff in Hall as [Hc Ht].
  rewrite (replaceAll_ascii_step _ _ _ (squashedByte_lt _ Hc)).
  rewrite (squashByte_fixed _ Hc). f_equal. apply IH; [lia | exact Ht].
Qed.

(** on a name of ASCII bytes the scan is a bytewise map *)
Lemma replaceAll_ascii (fuel : nat) :
  forall src, (String.length src <= fuel)%nat ->
  GoString.all (fun c => GoString.byte c <? 0x80) src = true ->
  regexp.replaceAll cnRegexp "_" fuel src = GoString.map squashByte src.
Proof.
  induction fuel as [|fuel IH]; intros [|c t] Hlen Hall; simpl in Hlen; try reflexivity; try lia.
  cbn [GoString.all] in Hall. apply andb_true_iff in Hall as [Hc Ht].
  apply N.ltb_lt in Hc.
  rewrite (replaceAll_ascii_step _ _ _ Hc). cbn [GoString.map]. f_equal.
  apply IH; [lia | exact Ht].
Qed.

Lemma replaceAll_length (fuel : nat) :
  forall src, (String.length src <= fuel)%nat ->
  (String.length (regexp.replaceAll cnRegexp "_" fuel src) <= String.length src)%nat.
Proof.
  induction fuel as [|fuel IH]; intros [|c t] Hlen; simpl in Hlen; try (simpl; lia).
  destruct (N.lt_ge_cases (GoString.byte c) 0x80) as [Hc|Hc].
  - rewrite (replaceAll_ascii_step _ _ _ Hc). simpl.
    specialize (IH t). lia.
  - destruct (replaceAll_other_step fuel c t Hc) as (w & Hw & ->).
    cbn [String.length].
    assert (L : (String.length (GoString.drop w (String c t)) <= String.length t)%nat).
    { rewrite drop_length. simpl. lia. }
    specialize (IH (GoString.drop w (String c t))). lia.
Qed.

Lemma squash_unfold (cn : string) :
  cmd.squash cn = regexp.replaceAll cnRegexp "_" (String.length cn) cn.
Proof. unfold cmd.squash. rewrite compile_cnPattern. reflexivity. Qed.

Lemma squash_squashed (cn : string) : GoString.all squashedByte (cmd.squash cn) = true.
Proof. rewrite squash_unfold. apply replaceAll_squashed. lia. Qed.

(** on ASCII names squashing maps each byte on its own: a byte of the
    class, the backslash among them, stays, any other becomes [_] *)
Lemma squash_ascii (cn : string) :
  GoString.all (fun c => GoString.byte c <? 0x80) cn = true ->
  cmd.squash cn = GoString.map squashByte cn.
Proof. intro H. rewrite squash_unfold. now apply replaceAll_ascii. Qed.

End Squash.

(** C1: squashing replaces every character outside the class of letters,
    digits, dot and hyphen by an underscore, except the backslash: the
    class the pattern compiles to holds the backslash too, so a backslash
    in a common name is kept, and the squashed name then has a byte that
    is none of letter, digit, dot, hyphen, underscore. *)
Theorem squash_keeps_backslash :
  cmd.squash "a\b" = "a\b" /\
  regexp.Compile cmd.cnPattern = Some cnRegexp /\
  regexp.matchRune cnRegexp 0x5C = false /\
  cmd.squash "a/b c" = "a_b_c".
Proof. repeat split; vm_compute; reflexivity. Qed.

(** C6: squashing a squashed name changes nothing, squashing is a
    function of the name alone, and [company a/b] squashes to
    [company_a_b]. *)
Theorem squash_idempotent :
  (forall cn, cmd.squash (cmd.squash cn) = cmd.squash cn) /\
  (forall cn1 cn2, cn1 = cn2 -> cmd.squash cn1 = cmd.squash cn2) /\
  cmd.squash "company a/b" = "company_a_b".
Proof.
  split; [|split].
  - intro cn. rewrite (squash_unfold (cmd.squash cn)).
    apply replaceAll_fixed; [lia | apply squash_squashed].
  - intros cn1 cn2 ->. reflexivity.
  - vm_compute. reflexivity.
Qed.

(** ** The generate commands *)

Section Commands.

Lemma sprintf_pem (name : string) : fmt.Sprintf "%s.pem" [name] = name +:+ ".pem".
Proof. reflexivity. Qed.

Lemma sprintf_key_pem (name : string) : fmt.Sprintf "%s-key.pem" [name] = name +:+ "-key.pem".
Proof. reflexivity. Qed.

Lemma mustCompile_cnPattern (k : regexp.Regexp -> cmd.Prog) :
  cmd.MustCompile cmd.cnPattern k = k cnRegexp.
Proof. unfold cmd.MustCompile. rewrite compile_cnPattern. reflexivity. Qed.

Lemma squash_as_replace (cn : string) :
  regexp.ReplaceAllString cnRegexp cn "_" = cmd.squash cn.
Proof. rewrite squash_unfold. reflexivity. Qed.

(** the calls of the onboarding command on a directory that passes the
    checks *)
Lemma onboard_trace (env : cmd.Env) (fl : cmd.Flags) (fi : cmd.FileInfo) :
  cmd.onboardingDatabasePath fl <> EmptyString ->
  cmd.stat env (cmd.onboardingDatabasePath fl) = inl fi ->
  cmd.IsDir fi = true ->
  fst (cmd.run env (cmd.generateOnboardCmd_Run fl))
  = [cmd.EvStat (cmd.onboardingDatabasePath fl);
     cmd.EvGenerate (cmd.cn fl) EmptyString
       (fst (cmd.pemPair (cmd.onboardingDatabasePath fl) (cmd.squash (cmd.cn fl))))
       (snd (cmd.pemPair (cmd.onboardingDatabasePath fl) (cmd.squash (cmd.cn fl))))
       (cmd.force fl)].
Proof.
  intros Hne Hst Hdir. unfold cmd.generateOnboardCmd_Run.
  destruct (decide (cmd.onboardingDatabasePath fl = EmptyString)) as [E|_]; [contradiction|].
  cbn [cmd.run]. rewrite Hst, Hdir. cbn [negb].
  change "[^a-zA-Z0-9\\.\\-]" with cmd.cnPattern.
  rewrite mustCompile_cnPattern. cbv zeta. cbn [cmd.run].
  rewrite squash_as_replace, sprintf_pem, sprintf_key_pem.
  unfold cmd.pemPair. cbn [fst snd].
  destruct (cmd.generate env _ _ _ _ _); reflexivity.
Qed.

Lemma device_trace (env : cmd.Env) (fl : cmd.Flags) (fi : cmd.FileInfo) :
  cmd.deviceDatabasePath fl <> EmptyString ->
  cmd.stat env (cmd.deviceDatabasePath fl) = inl fi ->
  cmd.IsDir fi = true ->
  fst (cmd.run env (cmd.generateDeviceCmd_Run fl))
  = [cmd.EvStat (cmd.deviceDatabasePath fl);
     cmd.EvGenerate (cmd.cn fl) EmptyString
       (fst (cmd.pemPair (cmd.deviceDatabasePath fl) (cmd.squash (cmd.cn fl))))
       (snd (cmd.pemPair (cmd.deviceDatabasePath fl) (cmd.squash (cmd.cn fl))))
       (cmd.force fl)].
Proof.
  intros Hne Hst Hdir. unfold cmd.generateDeviceCmd_Run.
  destruct (decide (cmd.deviceDatabasePath fl = EmptyString)) as [E|_]; [contradiction|].
  cbn [cmd.run]. rewrite Hst, Hdir. cbn [negb].
  change "[^a-zA-Z0-9\\.\\-]" with cmd.cnPattern.
  rewrite mustCompile_cnPattern. cbv zeta. cbn [cmd.run].
  rewrite squash_as_replace, sprintf_pem, sprintf_key_pem.
  unfold cmd.pemPair. cbn [fst snd].
  destruct (cmd.generate env _ _ _ _ _); reflexivity.
Qed.

(** a command whose path check fails exits through [log.Fatalf] after at
    most the [os.Stat] call *)
Lemma onboard_bad_path (env : cmd.Env) (fl : cmd.Flags) :
  cmd.badPath env (cmd.onboardingDatabasePath fl) ->
  exists msg,
    snd (cmd.run env (cmd.generateOnboardCmd_Run fl)) = cmd.Exited msg /\
    forallb (fun e => negb (cmd.isGenerate e))
            (fst (cmd.run env (cmd.generateOnboardCmd_Run fl))) = true.
Proof.
  intros [H|[[e H]|(fi & H & Hd)]]; unfold cmd.generateOnboardCmd_Run.
  - destruct (decide _) as [_|N]; [|contradiction]. eexists; split; reflexivity.
  - destruct (decide _); [eexists; split; reflexivity|].
    cbn [cmd.run]. rewrite H. eexists; split; reflexivity.
  - destruct (decide _); [eexists; split; reflexivity|].
    cbn [cmd.run]. rewrite H, Hd. eexists; split; reflexivity.
Qed.

Lemma device_bad_path (env : cmd.Env) (fl : cmd.Flags) :
  cmd.badPath env (cmd.deviceDatabasePath fl) ->
  exists msg,
    snd (cmd.run env (cmd.generateDeviceCmd_Run fl)) = cmd.Exited msg /\
    forallb (fun e => negb (cmd.isGenerate e))
            (fst (cmd.run env (cmd.generateDeviceCmd_Run fl))) = true.
Proof.
  intros [H|[[e H]|(fi & H & Hd)]]; unfold cmd.generateDeviceCmd_Run.
  - destruct (decide _) as [_|N]; [|contradiction]. eexists; split; reflexivity.
  - destruct (decide _); [eexists; split; reflexivity|].
    cbn [cmd.run]. rewrite H. eexists; split; reflexivity.
  - destruct (decide _); [eexists; split; reflexivity|].
    cbn [cmd.run]. rewrite H, Hd. eexists; split; reflexivity.
Qed.

(** [path.Join] also cleans what it joins *)
Example join_cleans :
  path.Join ["onboard/"; "a.pem"] = "onboard/a.pem" /\
  path.Join ["./db/../onboard"; "a.pem"] = "onboard/a.pem" /\
  path.Join ["/var/adam"; "a-key.pem"] = "/var/adam/a-key.pem".
Proof. repeat split; vm_compute; reflexivity. Qed.

End Commands.

(** C7: on a directory [dir] that passes the checks, the onboarding
    command and the device command call the generation routine with the
    same file pair for the same common name: [path.Join] of [dir] with
    [{squashed cn}.pem] and with [{squashed cn}-key.pem], squashed by the
    one pattern both compile. *)
Theorem generate_same_file_pair
    (env : cmd.Env) (fl : cmd.Flags) (dir : string) (fi : cmd.FileInfo) :
  cmd.onboardingDatabasePath fl = dir ->
  cmd.deviceDatabasePath fl = dir ->
  dir <> EmptyString ->
  cmd.stat env dir = inl fi ->
  cmd.IsDir fi = true ->
  let certPath := path.Join [dir; cmd.squash (cmd.cn fl) +:+ ".pem"] in
  let keyPath := path.Join [dir; cmd.squash (cmd.cn fl) +:+ "-key.pem"] in
  cmd.pemPair dir (cmd.squash (cmd.cn fl)) = (certPath, keyPath) /\
  fst (cmd.run env (cmd.generateOnboardCmd_Run fl))
    = [cmd.EvStat dir; cmd.EvGenerate (cmd.cn fl) EmptyString certPath keyPath (cmd.force fl)] /\
  fst (cmd.run env (cmd.generateDeviceCmd_Run fl))
    = [cmd.EvStat dir; cmd.EvGenerate (cmd.cn fl) EmptyString certPath keyPath (cmd.force fl)].
Proof.
  intros Ho Hd Hne Hst Hdir certPath keyPath. split; [reflexivity|]. split.
  - rewrite (onboard_trace env fl fi); rewrite ?Ho; auto.
  - rewrite (device_trace env fl fi); rewrite ?Hd; auto.
Qed.

Lemma generate_same_file_pair_witness :
  fst (cmd.run cmd.demoEnv
         (cmd.generateOnboardCmd_Run (cmd.mkFlags "company a/b" false "onboard" "onboard")))
    = [cmd.EvStat "onboard";
       cmd.EvGenerate "company a/b" EmptyString
         "onboard/company_a_b.pem" "onboard/company_a_b-key.pem" false] /\
  fst (cmd.run cmd.demoEnv
         (cmd.generateDeviceCmd_Run (cmd.mkFlags "company a/b" false "onboard" "onboard")))
    = [cmd.EvStat "onboard";
       cmd.EvGenerate "company a/b" EmptyString
         "onboard/company_a_b.pem" "onboard/company_a_b-key.pem" false].
Proof.
  exact (proj2 (generate_same_file_pair cmd.demoEnv
                  (cmd.mkFlags "company a/b" false "onboard" "onboard")
                  "onboard" (cmd.mkFileInfo true)
                  eq_refl eq_refl ltac:(discriminate) eq_refl eq_refl)).
Defined.

(** C8: when the target database path is empty, is not found by
    [os.Stat], or is not a directory, either command ends in [log.Fatalf]
    and the generation routine is not among the calls it made. *)
Theorem generate_checks_path_first (env : cmd.Env) (fl : cmd.Flags) :
  (cmd.badPath env (cmd.onboardingDatabasePath fl) ->
   exists msg,
     snd (cmd.run env (cmd.generateOnboardCmd_Run fl)) = cmd.Exited msg /\
     forallb (fun e => negb (cmd.isGenerate e))
             (fst (cmd.run env (cmd.generateOnboardCmd_Run fl))) = true) /\
  (cmd.badPath env (cmd.deviceDatabasePath fl) ->
   exists msg,
     snd (cmd.run env (cmd.generateDeviceCmd_Run fl)) = cmd.Exited msg /\
     forallb (fun e => negb (cmd.isGenerate e))
             (fst (cmd.run env (cmd.generateDeviceCmd_Run fl))) = true).
Proof. split; [apply onboard_bad_path | apply device_bad_path]. Qed.

Lemma generate_checks_path_first_witness :
  exists msg,
    snd (cmd.run cmd.demoEnv
           (cmd.generateOnboardCmd_Run (cmd.mkFlags "company-a" false "notes.txt" "missing")))
      = cmd.Exited msg /\
    forallb (fun e => negb (cmd.isGenerate e))
      (fst (cmd.run cmd.demoEnv
              (cmd.generateOnboardCmd_Run (cmd.mkFlags "company-a" false "notes.txt" "missing"))))
      = true.
Proof.
  exact (proj1 (generate_checks_path_first cmd.demoEnv
                  (cmd.mkFlags "company-a" false "notes.txt" "missing"))
               (or_intror (or_intror
                  (ex_intro _ (cmd.mkFileInfo false) (conj eq_refl eq_refl))))).
Defined.

(** ** The storage aggregate *)

Section Storage.
Context {Stream BackendError Certificate : Type}.
Context (bd_Write : Stream -> string -> Stream * (Z * option BackendError)).

Local Abbreviation State := (common.State Stream Certificate).
Local Abbreviation error := (common.error BackendError).

Lemma Write_ref (l : common.loc) (b : string) (st : State) :
  common.Write Stream BackendError Certificate bd_Write (Some l) b st
  = (common.Ok (fst (snd (bd_Write (common.heap st l) b)),
                common.backendError <$> snd (snd (bd_Write (common.heap st l) b))),
     common.mkState (common.dev st)
       (<[l := fst (bd_Write (common.heap st l) b)]> (common.heap st))
       (common.writes st ++ [(l, b)])).
Proof.
  unfold common.Write. destruct (bd_Write (common.heap st l) b) as [s' [n err]]. reflexivity.
Qed.

Lemma Write_nil (b : string) (st : State) :
  common.Write Stream BackendError Certificate bd_Write None b st
  = (common.Panicked "invalid memory address or nil pointer dereference", st).
Proof. reflexivity. Qed.

Lemma backend_not_local (err : option BackendError) (msg : string) :
  common.backendError <$> err <> Some (common.errorString msg).
Proof. destruct err; simpl; congruence. Qed.

(** the shape the five stream methods share: a nil check on one field,
    then one [Write] on it *)
Lemma guarded_write_spec (field : common.DeviceStorage Certificate -> common.BigData)
    (msg : string) :
  @common.addSpec Stream BackendError Certificate bd_Write field msg
    (fun b =>
       common.bind Stream Certificate (common.this Stream Certificate) (fun d =>
         match field d with
         | None => common.ret Stream Certificate (Some (common.errors_New BackendError msg))
         | Some _ =>
           common.bind Stream Certificate (common.Write Stream BackendError Certificate bd_Write (field d) b)
                       (fun r => common.ret Stream Certificate (snd r))
         end)).
Proof.
  intros st b. unfold common.bind, common.this, common.ret.
  destruct (field (common.dev st)) as [l|] eqn:E.
  - rewrite Write_ref. cbn [fst snd]. split; [discriminate|]. split.
    + intro H. exfalso. injection H as H. exact (backend_not_local _ _ H).
    + intros l' [= <-]. reflexivity.
  - split; [reflexivity|]. split; [reflexivity | discriminate].
Qed.

Lemma AddLogs_spec :
  @common.addSpec Stream BackendError Certificate bd_Write common.Logs
    "AddLog: Logs struct not yet initialized" (common.AddLogs bd_Write).
Proof. exact (guarded_write_spec common.Logs _). Qed.

Lemma AddInfo_spec :
  @common.addSpec Stream BackendError Certificate bd_Write common.Info
    "AddInfo: Info struct not yet initialized" (common.AddInfo bd_Write).
Proof. exact (guarded_write_spec common.Info _). Qed.

Lemma AddMetrics_spec :
  @common.addSpec Stream BackendError Certificate bd_Write common.Metrics
    "AddMetrics: Metrics struct not yet initialized" (common.AddMetrics bd_Write).
Proof. exact (guarded_write_spec common.Metrics _). Qed.

Lemma AddRequest_spec :
  @common.addSpec Stream BackendError Certificate bd_Write common.Requests
    "AddRequest: Requests struct not yet initialized" (common.AddRequest bd_Write).
Proof. exact (guarded_write_spec common.Requests _). Qed.

Lemma AddFlowRecord_spec :
  @common.addSpec Stream BackendError Certificate bd_Write common.FlowMessage
    "AddFlowRecord: FlowMessage struct not yet initialized"
    (common.AddFlowRecord bd_Write).
Proof. exact (guarded_write_spec common.FlowMessage _). Qed.

Lemma AddAppLog_uninitialized (st : State) (id : uuid.UUID) (b : string) :
  common.AppLogs (common.dev st) = None ->
  common.AddAppLog bd_Write id b st
  = (common.Ok (Some (common.errorString "AddAppLog: AppLogs struct not yet initialized")), st).
Proof.
  intro H. unfold common.AddAppLog, common.bind, common.this, common.ret.
  rewrite H. reflexivity.
Qed.

Lemma AddAppLog_not_found (st : State) (id : uuid.UUID) (b : string)
    (m : gmap uuid.UUID common.BigData) :
  common.AppLogs (common.dev st) = Some m -> m !! id = None ->
  common.AddAppLog bd_Write id b st
  = (common.Ok (Some (common.errorString
       ("AddAppLog: AppLogs for instance " +:+ uuid.String id +:+ " not yet initialized"))),
     st).
Proof.
  intros H Hm. unfold common.AddAppLog, common.bind, common.this, common.ret.
  unfold common.BigData in *. rewrite H. cbv beta iota. rewrite Hm. reflexivity.
Qed.

Lemma AddAppLog_delegates (st : State) (id : uuid.UUID) (b : string)
    (m : gmap uuid.UUID common.BigData) (l : common.loc) :
  common.AppLogs (common.dev st) = Some m -> m !! id = Some (Some l) ->
  common.AddAppLog bd_Write id b st
  = (common.Ok (common.backendError <$> snd (snd (bd_Write (common.heap st l) b))),
     common.mkState (common.dev st)
       (<[l := fst (bd_Write (common.heap st l) b)]> (common.heap st))
       (common.writes st ++ [(l, b)])).
Proof.
  intros H Hm. unfold common.AddAppLog, common.bind, common.this, common.ret.
  unfold common.BigData in *. rewrite H. cbv beta iota. rewrite Hm. cbv beta iota.
  rewrite Write_ref. reflexivity.
Qed.

(** an entry that is present with a nil stream: the method call on the
    nil interface value panics *)
Lemma AddAppLog_nil_entry (st : State) (id : uuid.UUID) (b : string)
    (m : gmap uuid.UUID common.BigData) :
  common.AppLogs (common.dev st) = Some m -> m !! id = Some None ->
  common.AddAppLog bd_Write id b st
  = (common.Panicked "invalid memory address or nil pointer dereference", st).
Proof.
  intros H Hm. unfold common.AddAppLog, common.bind, common.this, common.ret.
  unfold common.BigData in *. rewrite H. cbv beta iota. rewrite Hm. reflexivity.
Qed.

Lemma guarded_write_frames (field : common.DeviceStorage Certificate -> common.BigData)
    (msg : string) (b : string) :
  @common.frames Stream Certificate _ field
    (common.bind Stream Certificate (common.this Stream Certificate) (fun d =>
       match field d with
       | None => common.ret Stream Certificate (Some (common.errors_New BackendError msg))
       | Some _ =>
         common.bind Stream Certificate (common.Write Stream BackendError Certificate bd_Write (field d) b)
                     (fun r => common.ret Stream Certificate (snd r))
       end)).
Proof.
  intros st. unfold common.bind, common.this, common.ret.
  destruct (field (common.dev st)) as [l|] eqn:E.
  - rewrite Write_ref. cbn [fst snd common.dev common.heap]. split; [reflexivity|].
    intros l' N. apply fn_lookup_insert_ne. congruence.
  - split; [reflexivity | intros; reflexivity].
Qed.

Lemma AddLogs_frames (b : string) :
  @common.frames Stream Certificate _ common.Logs (common.AddLogs bd_Write b).
Proof. exact (guarded_write_frames common.Logs _ b). Qed.

Lemma AddInfo_frames (b : string) :
  @common.frames Stream Certificate _ common.Info (common.AddInfo bd_Write b).
Proof. exact (guarded_write_frames common.Info _ b). Qed.

Lemma AddMetrics_frames (b : string) :
  @common.frames Stream Certificate _ common.Metrics (common.AddMetrics bd_Write b).
Proof. exact (guarded_write_frames common.Metrics _ b). Qed.

Lemma AddRequest_frames (b : string) :
  @common.frames Stream Certificate _ common.Requests (common.AddRequest bd_Write b).
Proof. exact (guarded_write_frames common.Requests _ b). Qed.

Lemma AddFlowRecord_frames (b : string) :
  @common.frames Stream Certificate _ common.FlowMessage (common.AddFlowRecord bd_Write b).
Proof. exact (guarded_write_frames common.FlowMessage _ b). Qed.

Lemma AddAppLog_frames (id : uuid.UUID) (b : string) :
  @common.frames Stream Certificate _ (fun d => common.appLogTarget d id) (common.AddAppLog bd_Write id b).
Proof.
  intros st. unfold common.appLogTarget.
  destruct (common.AppLogs (common.dev st)) as [m|] eqn:E.
  - destruct (m !! id) as [[l|]|] eqn:Em; cbn [default].
    + rewrite (AddAppLog_delegates st id b m l E Em). cbn [fst snd common.dev common.heap].
      split; [reflexivity |].
      intros l' N. apply fn_lookup_insert_ne. intros ->. apply N. reflexivity.
    + rewrite (AddAppLog_nil_entry st id b m E Em). split; [reflexivity | intros; reflexivity].
    + rewrite (AddAppLog_not_found st id b m E Em). split; [reflexivity | intros; reflexivity].
  - rewrite (AddAppLog_uninitialized st id b E). split; [reflexivity | intros; reflexivity].
Qed.


(** C4: each of [AddLogs], [AddInfo], [AddMetrics], [AddRequest] and
    [AddFlowRecord] returns its not-initialized error exactly when its
    stream field is nil, and otherwise calls that stream's [Write] once
    on the payload and returns the error of that call as it is. *)
Theorem AddX_spec :
  @common.addSpec Stream BackendError Certificate bd_Write common.Logs
    "AddLog: Logs struct not yet initialized" (common.AddLogs bd_Write) /\
  @common.addSpec Stream BackendError Certificate bd_Write common.Info
    "AddInfo: Info struct not yet initialized" (common.AddInfo bd_Write) /\
  @common.addSpec Stream BackendError Certificate bd_Write common.Metrics
    "AddMetrics: Metrics struct not yet initialized" (common.AddMetrics bd_Write) /\
  @common.addSpec Stream BackendError Certificate bd_Write common.Requests
    "AddRequest: Requests struct not yet initialized" (common.AddRequest bd_Write) /\
  @common.addSpec Stream BackendError Certificate bd_Write common.FlowMessage
    "AddFlowRecord: FlowMessage struct not yet initialized" (common.AddFlowRecord bd_Write).
Proof.
  repeat split;
    first [ apply AddLogs_spec | apply AddInfo_spec | apply AddMetrics_spec
          | apply AddRequest_spec | apply AddFlowRecord_spec ].
Qed.

(** C5: a call of any of the six [AddX] methods, whatever it returns,
    leaves every field of the aggregate as it was, and every stream
    object other than the one the call is aimed at. *)
Theorem AddX_frames (id : uuid.UUID) (b : string) :
  @common.frames Stream Certificate _ common.Logs (common.AddLogs bd_Write b) /\
  @common.frames Stream Certificate _ common.Info (common.AddInfo bd_Write b) /\
  @common.frames Stream Certificate _ common.Metrics (common.AddMetrics bd_Write b) /\
  @common.frames Stream Certificate _ common.Requests (common.AddRequest bd_Write b) /\
  @common.frames Stream Certificate _ common.FlowMessage (common.AddFlowRecord bd_Write b) /\
  @common.frames Stream Certificate _ (fun d => common.appLogTarget d id) (common.AddAppLog bd_Write id b).
Proof.
  repeat split;
    first [ apply AddLogs_frames | apply AddInfo_frames | apply AddMetrics_frames
          | apply AddRequest_frames | apply AddFlowRecord_frames | apply AddAppLog_frames ].
Qed.

End Storage.



Lemma AddX_spec_witness :
  common.AddLogs common.memWrite "chunk" common.demoState
  = (common.Ok None,
     common.mkState common.demoDevice
       (<[3%positive := ["chunk"]]> (fun _ => []))
       [(3%positive, "chunk")]).
Proof.
  exact (proj2 (proj2 (proj1 (AddX_spec (Certificate := unit) common.memWrite)
                         common.demoState "chunk"))
               3%positive eq_refl).
Defined.

Lemma AddX_frames_witness :
  common.heap (snd (common.AddLogs common.memWrite "chunk" common.demoState)) 2%positive
  = common.heap common.demoState 2%positive.
Proof.
  exact (proj2 (proj1 (AddX_frames (Certificate := unit) common.memWrite 7%N "chunk")
                      common.demoState)
               2%positive ltac:(discriminate)).
Defined.

(** ** Serialized records *)

Section Json.
Local Open Scope N_scope.

Lemma append_cons (c : ascii) (a b : string) : String c a +:+ b = String c (a +:+ b).
Proof. reflexivity. Qed.

Lemma append_nil (b : string) : EmptyString +:+ b = b.
Proof. reflexivity. Qed.

Lemma append_cancel_l (s a b : string) : s +:+ a = s +:+ b -> a = b.
Proof.
  induction s as [|c s IH]; [auto|].
  rewrite !append_cons. intros [= H]. auto.
Qed.

Lemma append_length (a b : string) :
  String.length (a +:+ b) = (String.length a + String.length b)%nat.
Proof.
  induction a as [|c a IH]; [reflexivity|].
  rewrite append_cons. cbn [String.length]. now rewrite IH.
Qed.

Lemma append_assoc (a b c : string) : (a +:+ b) +:+ c = a +:+ (b +:+ c).
Proof.
  induction a as [|x a IH]; [reflexivity|].
  rewrite !append_cons. f_equal. exact IH.
Qed.

Lemma take_head (n : nat) (c : ascii) (t : string) :
  (1 <= n)%nat -> exists x, GoString.take n (String c t) = String c x.
Proof. destruct n; [lia|]. intros _. simpl. eauto. Qed.

Lemma htmlSafe_not_quote (c : ascii) :
  json.htmlSafe (GoString.byte c) = true -> c <> json.quote.
Proof.
  intros H ->. vm_compute in H. discriminate.
Qed.

Lemma escapeByte_head (b : N) : exists x, json.escapeByte b = String json.backslash x.
Proof.
  unfold json.escapeByte.
  repeat match goal with |- context [if ?e then _ else _] => destruct e end; eauto.
Qed.

(** the body of a non-empty string never starts with a bare quote *)
Lemma appendStringBody_head (fuel : nat) (c : ascii) (t : string) :
  exists d x, json.appendStringBody (S fuel) (String c t) = String d x /\ d <> json.quote.
Proof.
  cbn [json.appendStringBody].
  destruct (GoString.byte c <? utf8.RuneSelf) eqn:E.
  - destruct (json.htmlSafe (GoString.byte c)) eqn:S.
    + eexists _, _. split; [reflexivity | now apply htmlSafe_not_quote].
    + destruct (escapeByte_head (GoString.byte c)) as [x ->].
      eexists _, _. split; [reflexivity | discriminate].
  - apply N.ltb_ge in E.
    destruct (decode_nonascii c t E) as [_ Hw].
    destruct (utf8.DecodeRuneInString (String c t)) as [r size]. cbn [snd] in Hw.
    destruct ((r =? utf8.RuneError) && (size =? 1)%nat);
      [eexists _, _; split; [reflexivity | discriminate] |].
    destruct ((r =? 8232) || (r =? 8233));
      [eexists _, _; split; [reflexivity | discriminate] |].
    destruct (take_head size c t Hw) as [x ->].
    eexists _, _. split; [reflexivity|].
    intros ->. vm_compute in E. apply E. reflexivity.
Qed.

Lemma encString_empty_inv (s r r' : string) :
  json.encString s +:+ r = json.encString EmptyString +:+ r' -> s = EmptyString /\ r = r'.
Proof.
  destruct s as [|c t].
  - intro H. split; [reflexivity|]. eapply append_cancel_l, H.
  - unfold json.encString. cbn [String.length].
    destruct (appendStringBody_head (String.length t) c t) as (d & x & -> & Hd).
    rewrite !append_cons. intros [= H _]. congruence.
Qed.

Lemma encPtr_null_inv {A} (enc : A -> string) (p : option A) (r r' : string) :
  (forall x, exists y, enc x = String "{" y) ->
  json.encPtr enc p +:+ r = "null" +:+ r' -> p = None /\ r = r'.
Proof.
  intros Henc. destruct p as [x|]; cbn [json.encPtr].
  - destruct (Henc x) as [y ->]. rewrite !append_cons. discriminate.
  - intro H. split; [reflexivity|]. eapply append_cancel_l, H.
Qed.

Lemma encBool_false_inv (b : bool) (r r' : string) :
  json.encBool b +:+ r = "false" +:+ r' -> b = false /\ r = r'.
Proof.
  destruct b; cbn [json.encBool]; rewrite !append_cons, ?append_nil; [discriminate|].
  intros [= H]. auto.
Qed.

Lemma marshalPCRTemplate_head (t : common.PCRTemplate) :
  exists y, common.marshalPCRTemplate t = String "{" y.
Proof. unfold common.marshalPCRTemplate. rewrite append_cons. eauto. Qed.

Lemma CreateBaseDeviceOptions_json (T : Type) (enc : T -> string) (u : uuid.UUID) :
  common.CreateBaseDeviceOptions T enc u = common.emptyDeviceOptionsJSON.
Proof. vm_compute. reflexivity. Qed.

Lemma CreateBaseGlobalOptions_json :
  common.CreateBaseGlobalOptions = common.emptyGlobalOptionsJSON.
Proof. vm_compute. reflexivity. Qed.

(** only the zero record serializes to the base device options *)
Lemma marshalDeviceOptions_zero_inv (T : Type) (enc : T -> string)
    (d : common.DeviceOptions T) :
  common.marshalDeviceOptions T enc d
    = common.marshalDeviceOptions T enc (common.zeroDeviceOptions T) ->
  common.Nonce T d = EmptyString /\
  common.IntegrityToken T d = EmptyString /\
  common.ReceivedPCRTemplate T d = None /\
  common.Attested T d = false /\
  json.lenSlice (common.EventLog T d) = 0%nat.
Proof.
  unfold common.marshalDeviceOptions, common.zeroDeviceOptions.
  cbn [common.Nonce common.IntegrityToken common.ReceivedPCRTemplate
       common.Attested common.EventLog json.lenSlice Nat.eqb].
  intro H.
  do 2 apply append_cancel_l in H.
  apply encString_empty_inv in H as [H1 H].
  do 2 apply append_cancel_l in H.
  apply encString_empty_inv in H as [H2 H].
  do 2 apply append_cancel_l in H.
  apply (encPtr_null_inv _ _ _ _ marshalPCRTemplate_head) in H as [H3 H].
  do 2 apply append_cancel_l in H.
  apply encBool_false_inv in H as [H4 H].
  repeat split; try assumption.
  destruct (json.lenSlice (common.EventLog T d)); [reflexivity|].
  cbn [Nat.eqb] in H. rewrite !append_cons in H. discriminate.
Qed.

(** only the zero record serializes to the base global options *)
Lemma marshalGlobalOptions_zero_inv (g : common.GlobalOptions) :
  common.marshalGlobalOptions g = common.marshalGlobalOptions common.zeroGlobalOptions ->
  common.EnforceTemplateAttestation g = false /\ common.PCRTemplates g = None.
Proof.
  unfold common.marshalGlobalOptions, common.zeroGlobalOptions.
  cbn [common.EnforceTemplateAttestation common.PCRTemplates].
  intro H.
  do 2 apply append_cancel_l in H.
  apply encBool_false_inv in H as [H1 H].
  do 2 apply append_cancel_l in H.
  split; [assumption|].
  destruct (common.PCRTemplates g) as [l|]; [|reflexivity].
  cbn [json.encSlice] in H. rewrite !append_cons in H. discriminate.
Qed.

(** two base configurations whose payloads have one length are equal
    only if the payloads are *)
Lemma bytesField_inj (num : N) (p q : string) :
  String.length p = String.length q ->
  proto.bytesField num p = proto.bytesField num q -> p = q.
Proof.
  unfold proto.bytesField. intros -> H.
  do 2 apply append_cancel_l in H. exact H.
Qed.

Lemma CreateBaseConfig_depends (numId numUuid numVersion : N) :
  common.CreateBaseConfig numId numUuid numVersion 0
  <> common.CreateBaseConfig numId numUuid numVersion 1.
Proof.
  unfold common.CreateBaseConfig, common.marshalEdgeDevConfig,
    common.marshalUUIDandVersion.
  cbn [common.Id common.Uuid common.Version fmap option_fmap option_map proto.messageField].
  set (s0 := uuid.String 0). set (s1 := uuid.String 1).
  vm_compute in s0, s1. subst s0 s1.
  cbn [proto.stringField]. intro H.
  apply bytesField_inj in H.
  - unfold proto.bytesField in H. rewrite !append_assoc in H.
    do 2 apply append_cancel_l in H.
    apply (f_equal (String.get 35)) in H. vm_compute in H. discriminate.
  - unfold proto.bytesField. rewrite !append_length. reflexivity.
Qed.

End Json.

(** C9: [CreateBaseDeviceOptions] returns, for every UUID, the
    serialization of the device options with empty nonce, empty integrity
    token, nil received template, [attested] false and no event log, and
    [CreateBaseGlobalOptions] that of the global options with enforcement
    off and no templates; no other record serializes to either. *)
Theorem base_options_empty (T : Type) (enc : T -> string) (u : uuid.UUID) :
  common.CreateBaseDeviceOptions T enc u
    = common.marshalDeviceOptions T enc
        (common.mkDeviceOptions T EmptyString EmptyString None false None) /\
  common.CreateBaseDeviceOptions T enc u = common.emptyDeviceOptionsJSON /\
  (forall d, common.marshalDeviceOptions T enc d = common.CreateBaseDeviceOptions T enc u ->
     common.Nonce T d = EmptyString /\
     common.IntegrityToken T d = EmptyString /\
     common.ReceivedPCRTemplate T d = None /\
     common.Attested T d = false /\
     json.lenSlice (common.EventLog T d) = 0%nat) /\
  common.CreateBaseGlobalOptions
    = common.marshalGlobalOptions (common.mkGlobalOptions false None) /\
  common.CreateBaseGlobalOptions = common.emptyGlobalOptionsJSON /\
  (forall g, common.marshalGlobalOptions g = common.CreateBaseGlobalOptions ->
     common.EnforceTemplateAttestation g = false /\ common.PCRTemplates g = None).
Proof.
  split; [reflexivity|]. split; [apply CreateBaseDeviceOptions_json|].
  split; [intros d H; now apply (marshalDeviceOptions_zero_inv T enc)|].
  split; [reflexivity|]. split; [apply CreateBaseGlobalOptions_json|].
  intros g H. now apply marshalGlobalOptions_zero_inv.
Qed.

(** C10: [CreateBaseDeviceOptions] returns the same bytes for any two
    UUIDs, while [CreateBaseConfig] does not: whatever the field numbers
    of the schema, two UUIDs give two different configurations. *)
Theorem CreateBaseDeviceOptions_ignores_uuid (T : Type) (enc : T -> string) :
  (forall u1 u2,
     common.CreateBaseDeviceOptions T enc u1 = common.CreateBaseDeviceOptions T enc u2) /\
  (forall numId numUuid numVersion, exists u1 u2,
     common.CreateBaseConfig numId numUuid numVersion u1
     <> common.CreateBaseConfig numId numUuid numVersion u2).
Proof.
  split; [reflexivity|].
  intros numId numUuid numVersion. exists 0%N, 1%N. apply CreateBaseConfig_depends.
Qed.

(** ** Template matching *)

Section Attestation.
Import common attestation.

Lemma pcrSatisfied_iff (reported : PCRTemplate) (tv : PCRValue) :
  pcrSatisfied reported tv = true <-> Satisfied reported tv.
Proof.
  unfold pcrSatisfied, Satisfied.
  rewrite orb_true_iff, String.eqb_eq.
  destruct (reportedValue reported (Index tv)) as [v|].
  - rewrite String.eqb_eq. split; (intros [H|H]; [left; exact H | right; congruence]).
  - split; (intros [H|H]; [left; exact H | discriminate]).
Qed.

Lemma templateMatches_iff (reported t : PCRTemplate) :
  templateMatches reported t = true <-> Matches reported t.
Proof.
  unfold templateMatches, Matches.
  rewrite !andb_true_iff, !String.eqb_eq.
  assert (H : forallb (pcrSatisfied reported) (entries (PCRValues t)) = true
              <-> Forall (Satisfied reported) (entries (PCRValues t))).
  { induction (entries (PCRValues t)) as [|tv l IH]; cbn [forallb].
    - split; [constructor | reflexivity].
    - rewrite andb_true_iff, pcrSatisfied_iff, IH. split.
      + intros [H1 H2]. constructor; assumption.
      + intro H. inversion H; subst. split; assumption. }
  rewrite H. tauto.
Qed.

Lemma templateMatches_false_iff (reported t : PCRTemplate) :
  templateMatches reported t = false <-> ~ Matches reported t.
Proof.
  rewrite <- templateMatches_iff. destruct (templateMatches reported t); split; congruence.
Qed.

(** the scan returns the first template of the list that matches *)
Lemma firstMatch_spec (reported : PCRTemplate) (ts : list PCRTemplate) (t : PCRTemplate) :
  firstMatch reported ts = Some t <->
  exists before after,
    ts = (before ++ t :: after)%list /\ Matches reported t /\
    Forall (fun t' => ~ Matches reported t') before.
Proof.
  induction ts as [|t0 ts IH]; cbn [firstMatch].
  - split; [discriminate|]. intros (before & after & H & _). destruct before; discriminate.
  - destruct (templateMatches reported t0) eqn:E.
    + split.
      * intros [= <-]. exists [], ts.
        split; [reflexivity|]. split; [now apply templateMatches_iff | constructor].
      * intros (before & after & H & Hm & Hb). destruct before as [|b before].
        -- injection H as -> _. reflexivity.
        -- injection H as -> _. inversion Hb; subst.
           apply templateMatches_iff in E. contradiction.
    + rewrite IH. split.
      * intros (before & after & -> & Hm & Hb). exists (t0 :: before), after.
        split; [reflexivity|]. split; [exact Hm|].
        constructor; [now apply templateMatches_false_iff | exact Hb].
      * intros (before & after & H & Hm & Hb). destruct before as [|b before].
        -- injection H as <- _. apply templateMatches_iff in Hm. congruence.
        -- injection H as _ ->. inversion Hb; subst. exists before, after. auto.
Qed.

Lemma firstMatch_some (reported : PCRTemplate) (ts : list PCRTemplate) :
  (exists t, firstMatch reported ts = Some t) <->
  exists t, In t ts /\ Matches reported t.
Proof.
  induction ts as [|t0 ts IH]; cbn [firstMatch].
  - split; [intros [t H]; discriminate | intros (t & [] & _)].
  - destruct (templateMatches reported t0) eqn:E.
    + split; [|eauto]. intros _. exists t0. split; [now left | now apply templateMatches_iff].
    + rewrite IH. split.
      * intros (t & Hin & Hm). exists t. split; [now right | exact Hm].
      * intros (t & [<-|Hin] & Hm); [|eauto].
        apply templateMatches_iff in Hm. congruence.
Qed.

End Attestation.

(** C2: with enforcement on, a template matches the reported one exactly
    when both versions are equal and every PCRValue of the template is
    satisfied by the reported value at its index, by string equality or
    by the template value being the wildcard; and the template [Evaluate]
    settles on is the first of the list that matches. *)
Theorem Evaluate_first_match (g : common.GlobalOptions) (reported : common.PCRTemplate) :
  common.EnforceTemplateAttestation g = true ->
  (forall t, attestation.templateMatches reported t = true <->
     common.EveVersion t = common.EveVersion reported /\
     common.FirmwareVersion t = common.FirmwareVersion reported /\
     Forall (fun tv =>
               common.Value tv = "*" \/
               attestation.reportedValue reported (common.Index tv) = Some (common.Value tv))
            (attestation.entries (common.PCRValues t))) /\
  (forall t, attestation.winner (attestation.Evaluate g reported) = Some t <->
     exists before after,
       attestation.entries (common.PCRTemplates g) = (before ++ t :: after)%list /\
       attestation.Matches reported t /\
       Forall (fun t' => ~ attestation.Matches reported t') before) /\
  (attestation.matched (attestation.Evaluate g reported) = true <->
     exists t, In t (attestation.entries (common.PCRTemplates g)) /\
               attestation.Matches reported t).
Proof.
  intro He. split; [intro t; apply templateMatches_iff|].
  unfold attestation.Evaluate. rewrite He. cbn [attestation.winner attestation.matched].
  split; [intro t; apply firstMatch_spec|].
  rewrite <- firstMatch_some.
  destruct (attestation.firstMatch reported _) as [t|].
  - split; [eauto | reflexivity].
  - split; [discriminate | intros [t H]; discriminate].
Qed.

Lemma Evaluate_first_match_witness :
  attestation.winner (attestation.Evaluate attestation.demoGlobalOptions attestation.demoReported)
  = Some attestation.demoTemplate.
Proof.
  refine (proj2 (proj1 (proj2 (Evaluate_first_match attestation.demoGlobalOptions
                                 attestation.demoReported eq_refl))
                       attestation.demoTemplate) _).
  exists [], [attestation.demoLooseTemplate].
  split; [reflexivity|]. split; [|constructor].
  apply templateMatches_iff. reflexivity.
Defined.

(** the wildcard example of the spec *)
Example wildcard_template_matches :
  attestation.templateMatches attestation.demoReported attestation.demoTemplate = true /\
  attestation.templateMatches attestation.demoReportedOther attestation.demoTemplate = false /\
  attestation.templateMatches attestation.demoReported attestation.demoLooseTemplate = true.
Proof. repeat split; reflexivity. Qed.

(** * Further properties *)

(** ** The scan of [ReplaceAllString] *)

Section Scan.
Local Open Scope N_scope.

Lemma take_length (n : nat) (s : string) :
  String.length (GoString.take n s) = Nat.min n (String.length s).
Proof.
  revert s; induction n as [|n IH]; intros [|c t]; simpl; try reflexivity.
  now rewrite IH.
Qed.

Lemma take_drop (n : nat) (s : string) : GoString.take n s +:+ GoString.drop n s = s.
Proof.
  revert s; induction n as [|n IH]; intros [|c t]; try reflexivity.
  cbn [GoString.take GoString.drop]. rewrite append_cons. now rewrite IH.
Qed.

Lemma take_app (n : nat) (s t : string) :
  (n <= String.length s)%nat -> GoString.take n (s +:+ t) = GoString.take n s.
Proof.
  revert s; induction n as [|n IH]; intros [|c s] H; simpl in H; try reflexivity; try lia.
  rewrite append_cons. cbn [GoString.take]. rewrite IH by lia. reflexivity.
Qed.

Lemma drop_app (n : nat) (s t : string) :
  (n <= String.length s)%nat -> GoString.drop n (s +:+ t) = GoString.drop n s +:+ t.
Proof.
  revert s; induction n as [|n IH]; intros [|c s] H; simpl in H; try reflexivity; try lia.
  rewrite append_cons. cbn [GoString.drop]. apply IH. lia.
Qed.

(** the values the table [first] takes *)
Lemma first_cases (b : N) :
  utf8.first b = utf8.as_ \/ utf8.first b = utf8.xx \/
  utf8.first b = utf8.s1 \/ utf8.first b = utf8.s2 \/ utf8.first b = utf8.s3 \/
  utf8.first b = utf8.s4 \/ utf8.first b = utf8.s5 \/ utf8.first b = utf8.s6 \/
  utf8.first b = utf8.s7.
Proof.
  unfold utf8.first.
  repeat match goal with |- context [if ?e then _ else _] => destruct e end; tauto.
Qed.

Lemma decode_width (c : ascii) (t : string) :
  (1 <= snd (utf8.DecodeRuneInString (String c t)) <= String.length (String c t))%nat.
Proof.
  unfold utf8.DecodeRuneInString. cbv zeta.
  repeat match goal with
         | |- context [if ?e then _ else _] => destruct e
         | |- context [match ?s with EmptyString => _ | String _ _ => _ end] => destruct s
         end; cbn [snd String.length]; lia.
Qed.

Lemma decode_app (c0 : ascii) (s0 t : string) :
  asciiHead t = true ->
  utf8.DecodeRuneInString (String c0 (s0 +:+ t)) = utf8.DecodeRuneInString (String c0 s0).
Proof.
  intro Ht.
  destruct (first_cases (GoString.byte c0)) as [H|[H|[H|[H|[H|[H|[H|[H|H]]]]]]]];
    unfold utf8.DecodeRuneInString at 1 2; cbv zeta; rewrite H;
    match goal with |- context [utf8.as_ <=? ?x] => ev (utf8.as_ <=? x) end; cbv iota;
    try reflexivity.
  all: repeat match goal with
         | |- context [N.land ?x 7] => ev (N.land x 7)
         | |- context [utf8.acceptRanges ?i] => ev (utf8.acceptRanges i)
         end; cbn [fst snd].
  all: repeat match goal with
         | |- context [?a <=? ?b] => ev (a <=? b)
         end; cbv iota.
  all: destruct s0 as [|c1 [|c2 [|c3 s3]]]; destruct t as [|c t'];
    rewrite ?append_cons, ?append_nil; cbn [String.length asciiHead] in *;
    rewrite ?append_length; cbn [String.length];
    unfold utf8.locb, utf8.hicb;
    repeat match goal with
           | |- context [if ?e then _ else _] => destruct e eqn:?
           end; try reflexivity; exfalso;
    repeat match goal with
           | H : (_ || _) = false |- _ => apply orb_false_iff in H as [? ?]
           | H : (_ || _) = true |- _ => apply orb_true_iff in H
           | H : (_ <? _) = true |- _ => apply N.ltb_lt in H
           | H : (_ <? _) = false |- _ => apply N.ltb_ge in H
           end; lia.
Qed.

(** the scan is finished after [len(src)] turns: more fuel changes nothing *)
Lemma replaceAll_fuel (re : regexp.Regexp) (repl : string) (f1 : nat) :
  forall f2 src, (String.length src <= f1)%nat -> (String.length src <= f2)%nat ->
  regexp.replaceAll re repl f1 src = regexp.replaceAll re repl f2 src.
Proof.
  induction f1 as [|f1 IH]; intros [|f2] [|c t] H1 H2; simpl in H1, H2; try reflexivity; try lia.
  cbn [regexp.replaceAll].
  pose proof (decode_width c t) as Hw.
  destruct (utf8.DecodeRuneInString (String c t)) as [r w]. cbn [snd] in Hw.
  f_equal. apply IH; rewrite drop_length; simpl; lia.
Qed.

Lemma replaceAll_nil (re : regexp.Regexp) (repl : string) (fuel : nat) :
  regexp.replaceAll re repl fuel EmptyString = EmptyString.
Proof. destruct fuel; reflexivity. Qed.

Lemma replaceAll_app (re : regexp.Regexp) (repl : string) (t : string) :
  asciiHead t = true ->
  forall fuel s, (String.length s <= fuel)%nat ->
  regexp.replaceAll re repl (fuel + String.length t) (s +:+ t)
  = regexp.replaceAll re repl fuel s +:+ regexp.replaceAll re repl (String.length t) t.
Proof.
  intros Ht. induction fuel as [|fuel IH]; intros [|c s] H; simpl in H; try lia.
  - reflexivity.
  - rewrite replaceAll_nil, !append_nil. apply replaceAll_fuel; lia.
  - rewrite append_cons. cbn [Nat.add regexp.replaceAll].
    rewrite (decode_app c s t Ht).
    pose proof (decode_width c s) as Hw.
    destruct (utf8.DecodeRuneInString (String c s)) as [r w]. cbn [snd] in Hw.
    rewrite <- append_cons.
    rewrite (take_app w (String c s) t) by lia.
    rewrite (drop_app w (String c s) t) by lia.
    rewrite IH by (rewrite drop_length; simpl in *; lia).
    rewrite append_assoc. reflexivity.
Qed.

End Scan.

(** ** Squashed names *)

Section SquashedNames.
Local Open Scope N_scope.

Lemma all_get (p : ascii -> bool) (s : string) (i : nat) (c : ascii) :
  GoString.all p s = true -> String.get i s = Some c -> p c = true.
Proof.
  revert i; induction s as [|d s IH]; intros i Hall Hget; [discriminate|].
  cbn [GoString.all] in Hall. apply andb_true_iff in Hall as [Hd Hs].
  destruct i as [|i]; cbn [String.get] in Hget.
  - injection Hget as <-. exact Hd.
  - eapply IH; eauto.
Qed.

Lemma all_impl (p q : ascii -> bool) (s : string) :
  (forall c, p c = true -> q c = true) ->
  GoString.all p s = true -> GoString.all q s = true.
Proof.
  intro H. induction s as [|c s IH]; [reflexivity|].
  cbn [GoString.all]. rewrite !andb_true_iff. intros [Hc Hs]. split; auto.
Qed.

Lemma map_length (f : ascii -> ascii) (s : string) :
  String.length (GoString.map f s) = String.length s.
Proof. induction s as [|c s IH]; [reflexivity | simpl; now rewrite IH]. Qed.

Lemma squashedByte_cases (c : ascii) :
  squashedByte c = true ->
  (classByte c = true \/ c = "\"%char \/ c = "_"%char) /\ c <> "/"%char /\ isAscii c = true.
Proof.
  intro H. split; [|split].
  - unfold squashedByte, keptByte, classByte in *.
    rewrite !orb_true_iff, !N.eqb_eq in H. rewrite !orb_true_iff, !N.eqb_eq.
    destruct H as [[[[H|H]|H]|H]|H]; auto.
    + right; left. apply byte_inj. exact H.
    + right; right. apply byte_inj. exact H.
  - intros ->. vm_compute in H. discriminate.
  - apply N.ltb_lt. now apply squashedByte_lt.
Qed.

Lemma classByte_squashed (c : ascii) : classByte c = true -> squashedByte c = true.
Proof.
  unfold classByte, squashedByte, keptByte.
  rewrite !orb_true_iff. intros [[H|H]|H]; auto.
Qed.

End SquashedNames.

(** X1: every byte of a squashed name is a letter, a digit, a dot, a
    hyphen, a backslash or an underscore; it is never a slash and never a
    byte outside ASCII. *)
Theorem squash_alphabet (cn : string) (i : nat) (c : ascii) :
  String.get i (cmd.squash cn) = Some c ->
  (classByte c = true \/ c = "\"%char \/ c = "_"%char) /\ c <> "/"%char /\ isAscii c = true.
Proof.
  intro H. apply squashedByte_cases.
  exact (all_get _ _ _ _ (squash_squashed cn) H).
Qed.

Lemma squash_alphabet_witness :
  (classByte "_" = true \/ "_"%char = "\"%char \/ "_"%char = "_"%char)
  /\ "_"%char <> "/"%char /\ isAscii "_" = true.
Proof. exact (squash_alphabet "a/b" 1 "_" eq_refl). Defined.

(** X2: squashing never lengthens a name, and a name of ASCII bytes keeps
    its length: each of its bytes is mapped on its own, a kept byte to
    itself and any other to an underscore. *)
Theorem squash_length (cn : string) :
  (String.length (cmd.squash cn) <= String.length cn)%nat /\
  (GoString.all isAscii cn = true ->
   cmd.squash cn = GoString.map squashByte cn /\
   String.length (cmd.squash cn) = String.length cn).
Proof.
  split.
  - rewrite squash_unfold. apply replaceAll_length. lia.
  - intro H. rewrite (squash_ascii cn H). split; [reflexivity | apply map_length].
Qed.

(** X3: squashing leaves a name as it is exactly when the name consists
    of kept bytes and underscores; a name of letters, digits, dots and
    hyphens is such a name. *)
Theorem squash_fixed_iff (cn : string) :
  (cmd.squash cn = cn <-> GoString.all squashedByte cn = true) /\
  (GoString.all classByte cn = true -> cmd.squash cn = cn).
Proof.
  assert (F : GoString.all squashedByte cn = true -> cmd.squash cn = cn).
  { intro H. rewrite squash_unfold. apply replaceAll_fixed; [lia | exact H]. }
  split; [split|].
  - intro H. rewrite <- H. apply squash_squashed.
  - exact F.
  - intro H. apply F. revert H. apply all_impl, classByte_squashed.
Qed.

Lemma squash_fixed_iff_witness : cmd.squash "company-a" = "company-a".
Proof. exact (proj2 (squash_fixed_iff "company-a") eq_refl). Defined.

Lemma squash_append (s t : string) :
  asciiHead t = true ->
  cmd.squash (s +:+ t) = cmd.squash s +:+ cmd.squash t.
Proof.
  intro Ht. rewrite !squash_unfold, append_length.
  apply replaceAll_app; [exact Ht | lia].
Qed.

(** X4: squashing distributes over a concatenation whose second part is
    empty or starts with an ASCII byte: no rune of the first part reaches
    into the second. *)
Theorem squash_app (s t : string) :
  asciiHead t = true ->
  cmd.squash (s +:+ t) = cmd.squash s +:+ cmd.squash t.
Proof. exact (squash_append s t). Qed.

Lemma squash_app_witness :
  cmd.squash ("company a" +:+ "/b") = cmd.squash "company a" +:+ cmd.squash "/b".
Proof. exact (squash_app "company a" "/b" eq_refl). Defined.

(** The scan of [ReplaceAllString] takes at least one byte per turn,
    so [len(src)] turns finish it for every pattern and replacement: a
    longer run gives the same string. *)
Theorem ReplaceAllString_fuel (re : regexp.Regexp) (src repl : string) (fuel : nat) :
  (String.length src <= fuel)%nat ->
  regexp.replaceAll re repl fuel src = regexp.ReplaceAllString re src repl.
Proof. intro H. unfold regexp.ReplaceAllString. apply replaceAll_fuel; lia. Qed.

Lemma ReplaceAllString_fuel_witness :
  regexp.replaceAll cnRegexp "_" 20 "company a/b"
  = regexp.ReplaceAllString cnRegexp "company a/b" "_".
Proof. exact (ReplaceAllString_fuel cnRegexp "company a/b" "_" 20 ltac:(vm_compute; lia)). Defined.

(** ** [path.Join] on a directory and a file name *)

Section Clean.

Lemma copyElem_length (p : string) :
  forall rout, (String.length (snd (path.copyElem p rout)) <= String.length p)%nat.
Proof.
  induction p as [|c t IH]; intro rout; cbn [path.copyElem]; [simpl; lia|].
  destruct (path.isSlash c); cbn [snd String.length]; [lia|].
  specialize (IH (c :: rout)). lia.
Qed.

Lemma copyElem_app (q : string) (p : string) :
  forall rout,
  path.copyElem (p +:+ String "/" q) rout
  = (fst (path.copyElem p rout), snd (path.copyElem p rout) +:+ String "/" q).
Proof.
  induction p as [|c t IH]; intro rout.
  - reflexivity.
  - rewrite append_cons. cbn [path.copyElem].
    destruct (path.isSlash c); [reflexivity | apply IH].
Qed.

Lemma atElemEnd_app (t q : string) :
  path.atElemEnd (t +:+ String "/" q) = path.atElemEnd t.
Proof. destruct t; reflexivity. Qed.

Lemma startsWithDot_app (t q : string) :
  path.startsWithDot (t +:+ String "/" q) = path.startsWithDot t.
Proof. destruct t; reflexivity. Qed.

Lemma drop1_app (t q : string) :
  path.startsWithDot t = true ->
  GoString.drop 1 (t +:+ String "/" q) = GoString.drop 1 t +:+ String "/" q.
Proof. destruct t; [discriminate | reflexivity]. Qed.

Lemma cleanLoop_nil (fuel : nat) (rooted : bool) (rout : list ascii) (dd : nat) :
  path.cleanLoop fuel rooted EmptyString rout dd = rout.
Proof. destruct fuel; reflexivity. Qed.

Lemma cleanLoop_app (rooted : bool) (q : string) (fuel : nat) :
  forall p rout dd,
  (String.length p + S (String.length q) <= fuel)%nat ->
  exists k dd', (String.length q <= k)%nat /\
    path.cleanLoop fuel rooted (p +:+ String "/" q) rout dd
    = path.cleanLoop k rooted q (path.cleanLoop fuel rooted p rout dd) dd'.
Proof.
  induction fuel as [|fuel IH]; intros p rout dd H; [lia|].
  destruct p as [|c t].
  - exists fuel, dd. split; [simpl in H; lia|]. reflexivity.
  - rewrite append_cons. cbn [path.cleanLoop]. simpl in H.
    rewrite atElemEnd_app, startsWithDot_app.
    destruct (path.isSlash c) eqn:Es; [apply IH; lia|].
    destruct (path.isDot c && path.atElemEnd t) eqn:E1; [apply IH; lia|].
    destruct (path.isDot c && path.startsWithDot t) eqn:E2.
    + apply andb_true_iff in E2 as [_ E2].
      rewrite (drop1_app t q E2), atElemEnd_app.
      assert (L : (String.length (GoString.drop 1 t) + S (String.length q) <= fuel)%nat)
        by (rewrite drop_length; lia).
      cbn [andb].
      destruct (path.atElemEnd (GoString.drop 1 t)).
      * cbv zeta.
        repeat match goal with |- context [if ?e then _ else _] => destruct e end;
          apply IH; exact L.
      * rewrite <- append_cons, copyElem_app.
        pose proof (copyElem_length (String c t)) as Hc.
        match goal with |- context [path.copyElem (String c t) ?r] =>
          specialize (Hc r); destruct (path.copyElem (String c t) r) as [rout2 p'] eqn:Ec end.
        cbn [fst snd] in *.
        assert (String.length p' <= String.length t)%nat.
        { cbn [path.copyElem] in Ec. rewrite Es in Ec.
          pose proof (copyElem_length t (c :: (if (rooted && negb (Datatypes.length rout =? 1)%nat)
               || (negb rooted && negb (Datatypes.length rout =? 0)%nat)
            then "/"%char :: rout else rout))) as X.
          rewrite Ec in X. exact X. }
        apply IH. lia.
    + cbn [andb].
      rewrite <- append_cons, copyElem_app.
      match goal with |- context [path.copyElem (String c t) ?r] =>
        pose proof (copyElem_length t (c :: r)) as X;
        destruct (path.copyElem (String c t) r) as [rout2 p'] eqn:Ec end.
      cbn [fst snd] in *.
      cbn [path.copyElem] in Ec. rewrite Es in Ec. rewrite Ec in X. cbn [snd] in X.
      apply IH. lia.
Qed.

Lemma cleanLoop_fuel (rooted : bool) (f1 : nat) :
  forall f2 p rout dd,
  (String.length p <= f1)%nat -> (String.length p <= f2)%nat ->
  path.cleanLoop f1 rooted p rout dd = path.cleanLoop f2 rooted p rout dd.
Proof.
  induction f1 as [|f1 IH]; intros [|f2] [|c t] rout dd H1 H2; simpl in H1, H2;
    try reflexivity; try lia.
  cbn [path.cleanLoop].
  destruct (path.isSlash c) eqn:Es; [apply IH; lia|].
  destruct (path.isDot c && path.atElemEnd t); [apply IH; lia|].
  destruct (path.isDot c && path.startsWithDot t && path.atElemEnd (GoString.drop 1 t)).
  - cbv zeta.
    repeat match goal with |- context [if ?e then _ else _] => destruct e end;
      apply IH; rewrite drop_length; lia.
  - match goal with |- context [path.copyElem (String c t) ?r] =>
      pose proof (copyElem_length t (c :: r)) as X;
      destruct (path.copyElem (String c t) r) as [rout2 p'] eqn:Ec end.
    cbn [path.copyElem] in Ec. rewrite Es in Ec. rewrite Ec in X. cbn [snd] in X.
    apply IH; lia.
Qed.

Lemma copyElem_noSlash (p : string) :
  forall rout, noSlash p = true ->
  path.copyElem p rout = ((rev (list_ascii_of_string p) ++ rout)%list, EmptyString).
Proof.
  induction p as [|c t IH]; intros rout H; [reflexivity|].
  cbn [noSlash GoString.all] in H. apply andb_true_iff in H as [Hc Ht].
  cbn [path.copyElem]. apply negb_true_iff in Hc. rewrite Hc.
  rewrite (IH _ Ht). cbn [list_ascii_of_string rev]. now rewrite <- app_assoc.
Qed.

Lemma copyElem_prefix (p : string) :
  forall rout, exists Y, fst (path.copyElem p rout) = (Y ++ rout)%list.
Proof.
  induction p as [|c t IH]; intro rout; cbn [path.copyElem].
  - exists []. reflexivity.
  - destruct (path.isSlash c); [exists []; reflexivity|].
    destruct (IH (c :: rout)) as [Y HY]. exists (Y ++ [c])%list.
    rewrite HY, <- app_assoc. reflexivity.
Qed.

(** a proper element is copied as it is, after a separating slash where
    the buffer already holds an element *)
Lemma cleanLoop_elem (rooted : bool) (name : string) (k : nat)
    (rout : list ascii) (dd : nat) :
  properElem name = true -> (String.length name <= k)%nat ->
  path.cleanLoop k rooted name rout dd
  = (rev (list_ascii_of_string name)
    ++ (if (rooted && negb (List.length rout =? 1)%nat)
           || (negb rooted && negb (List.length rout =? 0)%nat)
        then "/"%char :: rout else rout))%list.
Proof.
  unfold properElem. rewrite !andb_true_iff, !negb_true_iff.
  intros [[[Hs He] H1] H2] Hk.
  destruct name as [|c t]; [discriminate|]. destruct k as [|k]; [simpl in Hk; lia|].
  cbn [path.cleanLoop].
  pose proof Hs as Hs'. cbn [noSlash GoString.all] in Hs'.
  apply andb_true_iff in Hs' as [Hc Ht]. apply negb_true_iff in Hc. rewrite Hc.
  assert (E1 : path.isDot c && path.atElemEnd t = false).
  { apply andb_false_iff. unfold path.isDot. destruct (decide (c = "."%char)) as [->|]; [right|now left].
    destruct t as [|d t]; [discriminate H1|].
    cbn [GoString.all] in Ht. apply andb_true_iff in Ht as [Hd _].
    apply negb_true_iff in Hd. exact Hd. }
  rewrite E1.
  assert (E2 : path.isDot c && path.startsWithDot t && path.atElemEnd (GoString.drop 1 t) = false).
  { unfold path.isDot. destruct (decide (c = "."%char)) as [->|]; [|reflexivity].
    destruct t as [|d t]; [reflexivity|]. cbn [path.startsWithDot andb GoString.drop].
    unfold path.isDot. destruct (decide (d = "."%char)) as [->|]; [|reflexivity].
    destruct t as [|e t]; [discriminate H2|].
    cbn [GoString.all] in Ht. apply andb_true_iff in Ht as [_ Ht].
    apply andb_true_iff in Ht as [Hd _]. apply negb_true_iff in Hd. exact Hd. }
  rewrite E2.
  rewrite (copyElem_noSlash _ _ Hs). apply cleanLoop_nil.
Qed.

Lemma backUp_bottom (rout : list ascii) :
  forall X, rout = (X ++ ["/"%char])%list -> (1 < List.length rout)%nat ->
  exists X', path.backUp rout 1 = (X' ++ ["/"%char])%list.
Proof.
  induction rout as [|c rest IH]; intros X HX Hlen; [simpl in Hlen; lia|].
  destruct X as [|x X]; [injection HX as -> ->; simpl in Hlen; lia|].
  injection HX as <- Hrest. cbn [path.backUp].
  destruct ((1 <? List.length rest)%nat && negb (path.isSlash c)) eqn:E.
  - apply andb_true_iff in E as [E _]. apply Nat.ltb_lt in E. eapply IH; eauto.
  - exists X. exact Hrest.
Qed.

(** on a rooted path the buffer keeps the leading slash at its bottom *)
Lemma cleanLoop_rooted (fuel : nat) :
  forall p rout, (exists X, rout = (X ++ ["/"%char])%list) ->
  exists X', path.cleanLoop fuel true p rout 1 = (X' ++ ["/"%char])%list.
Proof.
  induction fuel as [|fuel IH]; intros p rout HX; [exact HX|].
  destruct p as [|c t]; [exact HX|]. cbn [path.cleanLoop].
  destruct (path.isSlash c); [now apply IH|].
  destruct (path.isDot c && path.atElemEnd t); [now apply IH|].
  destruct (path.isDot c && path.startsWithDot t && path.atElemEnd (GoString.drop 1 t)).
  - cbv zeta. destruct (1 <? List.length rout)%nat eqn:E.
    + apply IH. apply Nat.ltb_lt in E. destruct HX as [X HX]. eapply backUp_bottom; eauto.
    + cbn [negb]. now apply IH.
  - cbn [andb orb negb].
    match goal with |- context [path.copyElem (String c t) ?r] =>
      destruct (copyElem_prefix (String c t) r) as [Y HY];
      destruct (path.copyElem (String c t) r) as [rout2 p'] eqn:Ec end.
    cbn [fst] in HY. subst rout2. apply IH.
    destruct HX as [X ->].
    destruct (negb (List.length (X ++ ["/"%char])%list =? 1)%nat).
    + exists (Y ++ "/"%char :: X)%list. now rewrite <- app_assoc.
    + exists (Y ++ X)%list. now rewrite <- app_assoc.
Qed.

Lemma string_of_list_ascii_app (l1 l2 : list ascii) :
  string_of_list_ascii (l1 ++ l2)%list = string_of_list_ascii l1 +:+ string_of_list_ascii l2.
Proof.
  induction l1 as [|c l1 IH]; [reflexivity|].
  cbn [app string_of_list_ascii]. rewrite append_cons. now rewrite IH.
Qed.

Lemma join2 (dir name : string) :
  dir <> EmptyString -> name <> EmptyString ->
  path.Join [dir; name] = path.Clean (dir +:+ String "/" name).
Proof.
  intros Hd Hn. destruct dir as [|c t]; [contradiction|]. destruct name as [|d n]; [contradiction|].
  unfold path.Join. cbn [List.map list_sum String.length Nat.add Nat.eqb fold_right].
  cbn [path.joinBuf String.length Nat.eqb negb orb].
  rewrite append_nil. cbn [String.length Nat.eqb negb orb].
  rewrite append_assoc. reflexivity.
Qed.


Lemma properElem_nonempty (name : string) : properElem name = true -> name <> EmptyString.
Proof. intros H ->. discriminate. Qed.

Lemma string_of_rev_elem (name : string) (R : list ascii) :
  string_of_list_ascii (rev (rev (list_ascii_of_string name) ++ R)%list)
  = string_of_list_ascii (rev R) +:+ name.
Proof.
  rewrite rev_app_distr, rev_involutive, string_of_list_ascii_app,
    string_of_list_ascii_of_string. reflexivity.
Qed.

Lemma clean_out_string (l : list ascii) :
  l <> [] ->
  match l with [] => "." | _ => string_of_list_ascii (rev l) end
  = string_of_list_ascii (rev l).
Proof. destruct l; [contradiction | reflexivity]. Qed.

Lemma rev_elem_nonempty (name : string) (R : list ascii) :
  name <> EmptyString -> (rev (list_ascii_of_string name) ++ R)%list <> [].
Proof.
  destruct name as [|c t]; [contradiction|]. intros _ H.
  cbn [list_ascii_of_string rev] in H.
  destruct (rev (list_ascii_of_string t)); discriminate H.
Qed.

Lemma join_under (dir : string) :
  dir <> EmptyString ->
  exists prefix,
    ((prefix = EmptyString /\ path.Clean dir = ".") \/
     (prefix = "/" /\ path.Clean dir = "/") \/
     prefix = path.Clean dir +:+ "/") /\
    forall name, properElem name = true -> path.Join [dir; name] = prefix +:+ name.
Proof.
  intro Hd. destruct dir as [|c t0]; [contradiction|].
  destruct (path.isSlash c) eqn:Es.
  - (* rooted *)
    destruct (cleanLoop_rooted (String.length (String c t0)) t0 ["/"%char]
                (ex_intro _ [] eq_refl)) as [X HX].
    assert (HC : path.Clean (String c t0) = string_of_list_ascii (rev (X ++ ["/"%char])%list)).
    { unfold path.Clean. rewrite Es, HX. destruct X; reflexivity. }
    exists (match X with [] => "/" | _ => path.Clean (String c t0) +:+ "/" end).
    split.
    { destruct X; [right; left; split; [reflexivity | rewrite HC; reflexivity] | right; right; reflexivity]. }
    intros name Hn.
    rewrite (join2 _ _ Hd (properElem_nonempty _ Hn)).
    rewrite append_cons. unfold path.Clean at 1. rewrite Es.
    destruct (cleanLoop_app true name (String.length (String c (t0 +:+ String "/" name)))
                t0 ["/"%char] 1) as (k & dd' & Hk & ->).
    { cbn [String.length]. rewrite append_length. cbn [String.length]. lia. }
    rewrite (cleanLoop_fuel true _ (String.length (String c t0)) t0 ["/"%char] 1), HX.
    2: { cbn [String.length]. rewrite append_length. lia. }
    2: { cbn [String.length]. lia. }
    rewrite (cleanLoop_elem true name k _ dd' Hn Hk).
    cbn [andb orb negb]. rewrite orb_false_r.
    destruct X as [|x X].
    + cbn [app List.length Nat.eqb negb].
      rewrite clean_out_string by (apply rev_elem_nonempty, properElem_nonempty, Hn).
      rewrite string_of_rev_elem. reflexivity.
    + assert (L : (List.length ((x :: X) ++ ["/"%char])%list =? 1)%nat = false).
      { rewrite length_app. cbn [List.length]. apply Nat.eqb_neq. lia. }
      rewrite L. cbn [negb].
      rewrite clean_out_string by (apply rev_elem_nonempty, properElem_nonempty, Hn).
      rewrite string_of_rev_elem, HC.
      change (rev ("/"%char :: (x :: X) ++ ["/"%char])%list)
        with (rev ((x :: X) ++ ["/"%char]) ++ ["/"%char])%list.
      rewrite string_of_list_ascii_app. reflexivity.
  - (* not rooted *)
    set (R := path.cleanLoop (String.length (String c t0)) false (String c t0) [] 0).
    assert (HC : path.Clean (String c t0)
                 = match R with [] => "." | _ => string_of_list_ascii (rev R) end).
    { unfold path.Clean. rewrite Es. reflexivity. }
    exists (match R with [] => EmptyString | _ => path.Clean (String c t0) +:+ "/" end).
    split.
    { destruct R; [left; split; [reflexivity | exact HC] | right; right; reflexivity]. }
    intros name Hn.
    rewrite (join2 _ _ Hd (properElem_nonempty _ Hn)).
    rewrite append_cons. unfold path.Clean at 1. rewrite Es. rewrite <- append_cons.
    destruct (cleanLoop_app false name (String.length (String c t0 +:+ String "/" name))
                (String c t0) [] 0) as (k & dd' & Hk & ->).
    { rewrite append_length. cbn [String.length]. lia. }
    rewrite (cleanLoop_fuel false _ (String.length (String c t0)) (String c t0) [] 0).
    2: { rewrite append_length. lia. }
    2: { lia. }
    fold R. fold R in HC.
    rewrite (cleanLoop_elem false name k _ dd' Hn Hk).
    cbn [andb orb negb].
    destruct R as [|x R'].
    + cbn [List.length Nat.eqb negb].
      rewrite clean_out_string by (apply rev_elem_nonempty, properElem_nonempty, Hn).
      rewrite string_of_rev_elem. reflexivity.
    + cbn [List.length Nat.eqb negb].
      rewrite clean_out_string by (apply rev_elem_nonempty, properElem_nonempty, Hn).
      rewrite string_of_rev_elem, HC.
      change (rev ("/"%char :: x :: R')%list) with (rev (x :: R') ++ ["/"%char])%list.
      rewrite string_of_list_ascii_app. reflexivity.
Qed.

End Clean.

(** ** Where the generated files land *)

Section FilePair.

Lemma all_app (p : ascii -> bool) (s t : string) :
  GoString.all p (s +:+ t) = GoString.all p s && GoString.all p t.
Proof.
  induction s as [|c s IH]; [reflexivity|].
  rewrite append_cons. cbn [GoString.all]. rewrite IH. apply andb_assoc.
Qed.

Lemma append_cancel_r (s : string) :
  forall a b, a +:+ s = b +:+ s -> a = b.
Proof.
  induction a as [|x a IH]; intros [|y b] H.
  - reflexivity.
  - apply (f_equal String.length) in H. rewrite !append_length in H. simpl in H. lia.
  - apply (f_equal String.length) in H. rewrite !append_length in H. simpl in H. lia.
  - rewrite !append_cons in H. injection H as -> H. f_equal. now apply IH.
Qed.

Lemma squashed_noSlash (x : string) :
  GoString.all squashedByte x = true -> noSlash x = true.
Proof.
  apply all_impl. intros c H.
  destruct (squashedByte_cases c H) as (_ & N & _).
  unfold path.isSlash. destruct (decide (c = "/"%char)); [contradiction | reflexivity].
Qed.

(** a squashed name followed by a suffix of four bytes or more, without a
    slash, is a proper path element *)
Lemma pem_name_proper (x suffix : string) :
  GoString.all squashedByte x = true -> noSlash suffix = true ->
  (4 <= String.length suffix)%nat ->
  properElem (x +:+ suffix) = true.
Proof.
  intros Hx Hs Hl. unfold properElem, noSlash.
  rewrite all_app. fold (noSlash x). fold (noSlash suffix).
  rewrite (squashed_noSlash x Hx), Hs. cbn [andb].
  assert (N : forall s, (String.length s < 4)%nat -> String.eqb (x +:+ suffix) s = false).
  { intros s H. apply String.eqb_neq. intros E.
    apply (f_equal String.length) in E. rewrite append_length in E. lia. }
  rewrite !N by (simpl; lia). reflexivity.
Qed.

Lemma pem_names_proper (cn : string) :
  properElem (cmd.squash cn +:+ ".pem") = true /\
  properElem (cmd.squash cn +:+ "-key.pem") = true.
Proof.
  split; apply pem_name_proper; try apply squash_squashed; try reflexivity; simpl; lia.
Qed.

(** the file pair under a directory, through the prefix [path.Join] puts
    before a proper element *)
Lemma pemPair_under (dir : string) :
  dir <> EmptyString ->
  exists prefix,
    ((prefix = EmptyString /\ path.Clean dir = ".") \/
     (prefix = "/" /\ path.Clean dir = "/") \/
     prefix = path.Clean dir +:+ "/") /\
    forall cn,
      cmd.pemPair dir (cmd.squash cn)
      = (prefix +:+ cmd.squash cn +:+ ".pem", prefix +:+ cmd.squash cn +:+ "-key.pem").
Proof.
  intro Hd. destruct (join_under dir Hd) as (prefix & Hp & Hj).
  exists prefix. split; [exact Hp|]. intro cn.
  destruct (pem_names_proper cn) as [H1 H2].
  unfold cmd.pemPair. rewrite (Hj _ H1), (Hj _ H2). reflexivity.
Qed.

End FilePair.



(** X6: on a directory that passes the checks, both commands hand the
    generation routine two files that sit right under the cleaned
    directory and are named by the squashed common name, [{name}.pem] and
    [{name}-key.pem]: whatever the common name, it cannot move the files
    out of the directory. *)
Theorem generated_files_under_dir
    (env : cmd.Env) (fl : cmd.Flags) (dir : string) (fi : cmd.FileInfo) :
  cmd.onboardingDatabasePath fl = dir ->
  cmd.deviceDatabasePath fl = dir ->
  dir <> EmptyString ->
  cmd.stat env dir = inl fi ->
  cmd.IsDir fi = true ->
  exists prefix,
    ((prefix = EmptyString /\ path.Clean dir = ".") \/
     (prefix = "/" /\ path.Clean dir = "/") \/
     prefix = path.Clean dir +:+ "/") /\
    noSlash (cmd.squash (cmd.cn fl)) = true /\
    fst (cmd.run env (cmd.generateOnboardCmd_Run fl))
      = [cmd.EvStat dir;
         cmd.EvGenerate (cmd.cn fl) EmptyString
           (prefix +:+ cmd.squash (cmd.cn fl) +:+ ".pem")
           (prefix +:+ cmd.squash (cmd.cn fl) +:+ "-key.pem") (cmd.force fl)] /\
    fst (cmd.run env (cmd.generateDeviceCmd_Run fl))
      = [cmd.EvStat dir;
         cmd.EvGenerate (cmd.cn fl) EmptyString
           (prefix +:+ cmd.squash (cmd.cn fl) +:+ ".pem")
           (prefix +:+ cmd.squash (cmd.cn fl) +:+ "-key.pem") (cmd.force fl)].
Proof.
  intros Ho Hd Hne Hst Hdir.
  destruct (pemPair_under dir Hne) as (prefix & Hp & Hpair).
  exists prefix. split; [exact Hp|].
  split; [apply squashed_noSlash, squash_squashed|].
  split.
  - rewrite (onboard_trace env fl fi); rewrite ?Ho; auto.
    rewrite (Hpair (cmd.cn fl)). reflexivity.
  - rewrite (device_trace env fl fi); rewrite ?Hd; auto.
    rewrite (Hpair (cmd.cn fl)). reflexivity.
Qed.

Lemma generated_files_under_dir_witness :
  exists prefix,
    ((prefix = EmptyString /\ path.Clean "onboard" = ".") \/
     (prefix = "/" /\ path.Clean "onboard" = "/") \/
     prefix = path.Clean "onboard" +:+ "/") /\
    noSlash (cmd.squash "../../etc/passwd") = true /\
    fst (cmd.run cmd.demoEnv
           (cmd.generateOnboardCmd_Run (cmd.mkFlags "../../etc/passwd" true "onboard" "onboard")))
      = [cmd.EvStat "onboard";
         cmd.EvGenerate "../../etc/passwd" EmptyString
           (prefix +:+ cmd.squash "../../etc/passwd" +:+ ".pem")
           (prefix +:+ cmd.squash "../../etc/passwd" +:+ "-key.pem") true] /\
    fst (cmd.run cmd.demoEnv
           (cmd.generateDeviceCmd_Run (cmd.mkFlags "../../etc/passwd" true "onboard" "onboard")))
      = [cmd.EvStat "onboard";
         cmd.EvGenerate "../../etc/passwd" EmptyString
           (prefix +:+ cmd.squash "../../etc/passwd" +:+ ".pem")
           (prefix +:+ cmd.squash "../../etc/passwd" +:+ "-key.pem") true].
Proof.
  exact (generated_files_under_dir cmd.demoEnv
           (cmd.mkFlags "../../etc/passwd" true "onboard" "onboard")
           "onboard" (cmd.mkFileInfo true)
           eq_refl eq_refl ltac:(discriminate) eq_refl eq_refl).
Defined.

(** X7: under one directory, the certificate file and the key file of a
    common name are never the same file, and two common names get the
    same file pair (or the same certificate file) exactly when they
    squash to the same name. *)
Theorem file_pair_collisions (dir cn1 cn2 : string) :
  dir <> EmptyString ->
  fst (cmd.pemPair dir (cmd.squash cn1)) <> snd (cmd.pemPair dir (cmd.squash cn1)) /\
  (cmd.pemPair dir (cmd.squash cn1) = cmd.pemPair dir (cmd.squash cn2)
   <-> cmd.squash cn1 = cmd.squash cn2) /\
  (fst (cmd.pemPair dir (cmd.squash cn1)) = fst (cmd.pemPair dir (cmd.squash cn2))
   <-> cmd.squash cn1 = cmd.squash cn2).
Proof.
  intro Hd. destruct (pemPair_under dir Hd) as (prefix & _ & Hpair).
  rewrite !Hpair. cbn [fst snd].
  assert (C : prefix +:+ cmd.squash cn1 +:+ ".pem" = prefix +:+ cmd.squash cn2 +:+ ".pem"
              -> cmd.squash cn1 = cmd.squash cn2).
  { intro H. apply append_cancel_l in H. now apply append_cancel_r in H. }
  split; [|split].
  - intro H. do 2 apply append_cancel_l in H. discriminate H.
  - split; [intros [= H _]; now apply C | intros ->; reflexivity].
  - split; [exact C | intros ->; reflexivity].
Qed.

Lemma file_pair_collisions_witness :
  fst (cmd.pemPair "onboard" (cmd.squash "a b")) <> snd (cmd.pemPair "onboard" (cmd.squash "a b")) /\
  (cmd.pemPair "onboard" (cmd.squash "a b") = cmd.pemPair "onboard" (cmd.squash "a/b")
   <-> cmd.squash "a b" = cmd.squash "a/b") /\
  (fst (cmd.pemPair "onboard" (cmd.squash "a b")) = fst (cmd.pemPair "onboard" (cmd.squash "a/b"))
   <-> cmd.squash "a b" = cmd.squash "a/b").
Proof. exact (file_pair_collisions "onboard" "a b" "a/b" ltac:(discriminate)). Defined.

(** X8: the key file of a common name is the certificate file of that
    name followed by [-key], under every directory. *)
Theorem key_file_is_cert_file_of_key_name (dir cn : string) :
  snd (cmd.pemPair dir (cmd.squash cn)) = fst (cmd.pemPair dir (cmd.squash (cn +:+ "-key"))).
Proof.
  rewrite (squash_append cn "-key" eq_refl).
  change (cmd.squash "-key") with "-key".
  unfold cmd.pemPair. cbn [fst snd]. rewrite append_assoc. reflexivity.
Qed.

(** ** How the commands end *)

Section Outcomes.

Lemma append_nil_r (s : string) : s +:+ EmptyString = s.
Proof. induction s as [|c s IH]; [reflexivity | rewrite append_cons; now rewrite IH]. Qed.

Lemma sprintf_error (e : string) :
  fmt.Sprintf "error generating key/cert: %v" [e] = "error generating key/cert: " +:+ e.
Proof.
  change (fmt.Sprintf "error generating key/cert: %v" [e])
    with ("error generating key/cert: " +:+ (e +:+ EmptyString)).
  now rewrite append_nil_r.
Qed.

Lemma onboard_run (env : cmd.Env) (fl : cmd.Flags) :
  ~ cmd.badPath env (cmd.onboardingDatabasePath fl) ->
  snd (cmd.run env (cmd.generateOnboardCmd_Run fl))
  = afterGenerate
      (cmd.generate env (cmd.cn fl) EmptyString
         (fst (cmd.pemPair (cmd.onboardingDatabasePath fl) (cmd.squash (cmd.cn fl))))
         (snd (cmd.pemPair (cmd.onboardingDatabasePath fl) (cmd.squash (cmd.cn fl))))
         (cmd.force fl)).
Proof.
  intro Hok. unfold cmd.generateOnboardCmd_Run.
  destruct (decide (cmd.onboardingDatabasePath fl = EmptyString)) as [E|_];
    [exfalso; apply Hok; now left|].
  cbn [cmd.run].
  destruct (cmd.stat env (cmd.onboardingDatabasePath fl)) as [fi|e] eqn:Es;
    [|exfalso; apply Hok; right; left; eauto].
  destruct (cmd.IsDir fi) eqn:Ed;
    [|exfalso; apply Hok; right; right; eauto].
  cbn [negb].
  change "[^a-zA-Z0-9\\.\\-]" with cmd.cnPattern.
  rewrite mustCompile_cnPattern. cbv zeta. cbn [cmd.run].
  rewrite squash_as_replace, sprintf_pem, sprintf_key_pem.
  unfold cmd.pemPair. cbn [fst snd].
  destruct (cmd.generate env _ _ _ _ _) as [e|]; cbn [cmd.run snd afterGenerate];
    [now rewrite sprintf_error | reflexivity].
Qed.

Lemma device_run (env : cmd.Env) (fl : cmd.Flags) :
  ~ cmd.badPath env (cmd.deviceDatabasePath fl) ->
  snd (cmd.run env (cmd.generateDeviceCmd_Run fl))
  = afterGenerate
      (cmd.generate env (cmd.cn fl) EmptyString
         (fst (cmd.pemPair (cmd.deviceDatabasePath fl) (cmd.squash (cmd.cn fl))))
         (snd (cmd.pemPair (cmd.deviceDatabasePath fl) (cmd.squash (cmd.cn fl))))
         (cmd.force fl)).
Proof.
  intro Hok. unfold cmd.generateDeviceCmd_Run.
  destruct (decide (cmd.deviceDatabasePath fl = EmptyString)) as [E|_];
    [exfalso; apply Hok; now left|].
  cbn [cmd.run].
  destruct (cmd.stat env (cmd.deviceDatabasePath fl)) as [fi|e] eqn:Es;
    [|exfalso; apply Hok; right; left; eauto].
  destruct (cmd.IsDir fi) eqn:Ed;
    [|exfalso; apply Hok; right; right; eauto].
  cbn [negb].
  change "[^a-zA-Z0-9\\.\\-]" with cmd.cnPattern.
  rewrite mustCompile_cnPattern. cbv zeta. cbn [cmd.run].
  rewrite squash_as_replace, sprintf_pem, sprintf_key_pem.
  unfold cmd.pemPair. cbn [fst snd].
  destruct (cmd.generate env _ _ _ _ _) as [e|]; cbn [cmd.run snd afterGenerate];
    [now rewrite sprintf_error | reflexivity].
Qed.

Lemma badPath_dec (env : cmd.Env) (p : string) : cmd.badPath env p \/ ~ cmd.badPath env p.
Proof.
  unfold cmd.badPath.
  destruct (decide (p = EmptyString)) as [E|N]; [now left; left|].
  destruct (cmd.stat env p) as [fi|e] eqn:Es.
  - destruct (cmd.IsDir fi) eqn:Ed.
    + right. intros [H|[[e H]|(fi' & H & Hd)]]; [contradiction | discriminate |].
      injection H as <-. congruence.
    + left. right. right. eauto.
  - left. right. left. eauto.
Qed.

Lemma afterGenerate_returned (err : option cmd.error) :
  afterGenerate err = cmd.Returned <-> err = None.
Proof. destruct err; cbn; split; congruence. Qed.

Lemma afterGenerate_not_panicked (err : option cmd.error) (msg : string) :
  afterGenerate err <> cmd.Panicked msg.
Proof. destruct err; cbn; congruence. Qed.

End Outcomes.

(** X9: the onboarding and the device command return normally exactly
    when the target path passes the checks and the generation routine,
    called with the common name as given, no hosts and the file pair of
    the squashed name, reports no error; when it reports one they exit
    through [log.Fatalf] with its text, and they never panic. *)
Theorem client_command_outcome (env : cmd.Env) (fl : cmd.Flags) :
  (snd (cmd.run env (cmd.generateOnboardCmd_Run fl)) = cmd.Returned <->
   ~ cmd.badPath env (cmd.onboardingDatabasePath fl) /\
   cmd.generate env (cmd.cn fl) EmptyString
     (fst (cmd.pemPair (cmd.onboardingDatabasePath fl) (cmd.squash (cmd.cn fl))))
     (snd (cmd.pemPair (cmd.onboardingDatabasePath fl) (cmd.squash (cmd.cn fl))))
     (cmd.force fl) = None) /\
  (snd (cmd.run env (cmd.generateDeviceCmd_Run fl)) = cmd.Returned <->
   ~ cmd.badPath env (cmd.deviceDatabasePath fl) /\
   cmd.generate env (cmd.cn fl) EmptyString
     (fst (cmd.pemPair (cmd.deviceDatabasePath fl) (cmd.squash (cmd.cn fl))))
     (snd (cmd.pemPair (cmd.deviceDatabasePath fl) (cmd.squash (cmd.cn fl))))
     (cmd.force fl) = None) /\
  (forall e,
     ~ cmd.badPath env (cmd.onboardingDatabasePath fl) ->
     cmd.generate env (cmd.cn fl) EmptyString
       (fst (cmd.pemPair (cmd.onboardingDatabasePath fl) (cmd.squash (cmd.cn fl))))
       (snd (cmd.pemPair (cmd.onboardingDatabasePath fl) (cmd.squash (cmd.cn fl))))
       (cmd.force fl) = Some e ->
     snd (cmd.run env (cmd.generateOnboardCmd_Run fl))
     = cmd.Exited ("error generating key/cert: " +:+ e)) /\
  (forall msg,
     snd (cmd.run env (cmd.generateOnboardCmd_Run fl)) <> cmd.Panicked msg /\
     snd (cmd.run env (cmd.generateDeviceCmd_Run fl)) <> cmd.Panicked msg).
Proof.
  split; [|split; [|split]].
  - destruct (badPath_dec env (cmd.onboardingDatabasePath fl)) as [B|G].
    + destruct (onboard_bad_path env fl B) as (msg & -> & _).
      split; [discriminate | intros [N _]; contradiction].
    + rewrite (onboard_run env fl G), afterGenerate_returned. tauto.
  - destruct (badPath_dec env (cmd.deviceDatabasePath fl)) as [B|G].
    + destruct (device_bad_path env fl B) as (msg & -> & _).
      split; [discriminate | intros [N _]; contradiction].
    + rewrite (device_run env fl G), afterGenerate_returned. tauto.
  - intros e G H. rewrite (onboard_run env fl G), H. reflexivity.
  - intro msg. split.
    + destruct (badPath_dec env (cmd.onboardingDatabasePath fl)) as [B|G].
      * destruct (onboard_bad_path env fl B) as (m & -> & _). discriminate.
      * rewrite (onboard_run env fl G). apply afterGenerate_not_panicked.
    + destruct (badPath_dec env (cmd.deviceDatabasePath fl)) as [B|G].
      * destruct (device_bad_path env fl B) as (m & -> & _). discriminate.
      * rewrite (device_run env fl G). apply afterGenerate_not_panicked.
Qed.

(** X10: none of the three commands calls the generation routine more
    than once, and none passes it a common name together with hosts: the
    server command passes hosts and no name and makes no [os.Stat] call,
    the onboarding and device commands pass a name and no hosts. *)
Theorem generate_called_once (env : cmd.Env) (fl : cmd.Flags)
    (hosts certPath keyPath : string) (force : bool) :
  fst (cmd.run env (cmd.generateServerCmd_Run hosts certPath keyPath force))
    = [cmd.EvGenerate EmptyString hosts certPath keyPath force] /\
  (List.length (cmd.generateCalls (fst (cmd.run env (cmd.generateOnboardCmd_Run fl)))) <= 1)%nat /\
  (List.length (cmd.generateCalls (fst (cmd.run env (cmd.generateDeviceCmd_Run fl)))) <= 1)%nat /\
  existsb cmd.mixesCnAndHosts
    (fst (cmd.run env (cmd.generateServerCmd_Run hosts certPath keyPath force))
     ++ fst (cmd.run env (cmd.generateOnboardCmd_Run fl))
     ++ fst (cmd.run env (cmd.generateDeviceCmd_Run fl)))%list = false.
Proof.
  assert (S : fst (cmd.run env (cmd.generateServerCmd_Run hosts certPath keyPath force))
              = [cmd.EvGenerate EmptyString hosts certPath keyPath force]).
  { unfold cmd.generateServerCmd_Run. cbn [cmd.run].
    destruct (cmd.generate env _ _ _ _ _); reflexivity. }
  assert (O : exists tr, fst (cmd.run env (cmd.generateOnboardCmd_Run fl)) = tr /\
              (List.length (cmd.generateCalls tr) <= 1)%nat /\
              existsb cmd.mixesCnAndHosts tr = false).
  { destruct (badPath_dec env (cmd.onboardingDatabasePath fl)) as [B|G].
    - unfold cmd.generateOnboardCmd_Run.
      destruct B as [H|[[e H]|(fi & H & Hd)]].
      + destruct (decide _) as [_|N]; [|contradiction]. eexists; repeat split; cbn; lia.
      + destruct (decide _); [eexists; repeat split; cbn; lia|].
        cbn [cmd.run]. rewrite H. eexists; repeat split; cbn; lia.
      + destruct (decide _); [eexists; repeat split; cbn; lia|].
        cbn [cmd.run]. rewrite H, Hd. eexists; repeat split; cbn; lia.
    - assert (E : cmd.onboardingDatabasePath fl <> EmptyString) by (intro; apply G; now left).
      destruct (cmd.stat env (cmd.onboardingDatabasePath fl)) as [fi|e] eqn:Es;
        [|exfalso; apply G; right; left; eauto].
      destruct (cmd.IsDir fi) eqn:Ed; [|exfalso; apply G; right; right; eauto].
      rewrite (onboard_trace env fl fi E Es Ed).
      eexists; split; [reflexivity|]. split; [cbn; lia|].
      cbn [existsb cmd.mixesCnAndHosts String.eqb negb andb orb].
      now rewrite andb_false_r. }
  assert (D : exists tr, fst (cmd.run env (cmd.generateDeviceCmd_Run fl)) = tr /\
              (List.length (cmd.generateCalls tr) <= 1)%nat /\
              existsb cmd.mixesCnAndHosts tr = false).
  { destruct (badPath_dec env (cmd.deviceDatabasePath fl)) as [B|G].
    - unfold cmd.generateDeviceCmd_Run.
      destruct B as [H|[[e H]|(fi & H & Hd)]].
      + destruct (decide _) as [_|N]; [|contradiction]. eexists; repeat split; cbn; lia.
      + destruct (decide _); [eexists; repeat split; cbn; lia|].
        cbn [cmd.run]. rewrite H. eexists; repeat split; cbn; lia.
      + destruct (decide _); [eexists; repeat split; cbn; lia|].
        cbn [cmd.run]. rewrite H, Hd. eexists; repeat split; cbn; lia.
    - assert (E : cmd.deviceDatabasePath fl <> EmptyString) by (intro; apply G; now left).
      destruct (cmd.stat env (cmd.deviceDatabasePath fl)) as [fi|e] eqn:Es;
        [|exfalso; apply G; right; left; eauto].
      destruct (cmd.IsDir fi) eqn:Ed; [|exfalso; apply G; right; right; eauto].
      rewrite (device_trace env fl fi E Es Ed).
      eexists; split; [reflexivity|]. split; [cbn; lia|].
      cbn [existsb cmd.mixesCnAndHosts String.eqb negb andb orb].
      now rewrite andb_false_r. }
  destruct O as (tro & -> & Lo & Mo). destruct D as (trd & -> & Ld & Md).
  rewrite S. repeat split; try assumption.
  rewrite !existsb_app, Mo, Md. reflexivity.
Qed.

(** ** Sequences of writes *)

Section Sequences.
Context {Stream BackendError Certificate : Type}.
Context (bd_Write : Stream -> string -> Stream * (Z * option BackendError)).

Local Abbreviation State := (common.State Stream Certificate).

(** a call on a provisioned stream, spelled out *)
Lemma guarded_write_run (field : common.DeviceStorage Certificate -> common.BigData)
    (msg : string) (b : string) (st : State) (l : common.loc) :
  field (common.dev st) = Some l ->
  common.bind Stream Certificate (common.this Stream Certificate) (fun d =>
    match field d with
    | None => common.ret Stream Certificate (Some (common.errors_New BackendError msg))
    | Some _ =>
      common.bind Stream Certificate
        (common.Write Stream BackendError Certificate bd_Write (field d) b)
        (fun r => common.ret Stream Certificate (snd r))
    end) st
  = (common.Ok (common.backendError <$> snd (snd (bd_Write (common.heap st l) b))),
     common.mkState (common.dev st)
       (<[l := fst (bd_Write (common.heap st l) b)]> (common.heap st))
       (common.writes st ++ [(l, b)])).
Proof.
  intro H. exact (proj2 (proj2 (guarded_write_spec bd_Write field msg st b)) l H).
Qed.

Lemma AddLogs_run (b : string) (st : State) (l : common.loc) :
  common.Logs (common.dev st) = Some l ->
  common.AddLogs bd_Write b st
  = (common.Ok (common.backendError <$> snd (snd (bd_Write (common.heap st l) b))),
     common.mkState (common.dev st)
       (<[l := fst (bd_Write (common.heap st l) b)]> (common.heap st))
       (common.writes st ++ [(l, b)])).
Proof. exact (guarded_write_run common.Logs _ b st l). Qed.

Lemma AddInfo_run (b : string) (st : State) (l : common.loc) :
  common.Info (common.dev st) = Some l ->
  common.AddInfo bd_Write b st
  = (common.Ok (common.backendError <$> snd (snd (bd_Write (common.heap st l) b))),
     common.mkState (common.dev st)
       (<[l := fst (bd_Write (common.heap st l) b)]> (common.heap st))
       (common.writes st ++ [(l, b)])).
Proof. exact (guarded_write_run common.Info _ b st l). Qed.

(** X11: the five stream methods always return, with an error or without;
    [AddAppLog] fails to return, by a panic, exactly when the map has an
    entry for the instance whose stream is nil. *)
Theorem AddX_panics (st : State) (id : uuid.UUID) (b : string) :
  (exists r, fst (common.AddLogs bd_Write b st) = common.Ok r) /\
  (exists r, fst (common.AddInfo bd_Write b st) = common.Ok r) /\
  (exists r, fst (common.AddMetrics bd_Write b st) = common.Ok r) /\
  (exists r, fst (common.AddRequest bd_Write b st) = common.Ok r) /\
  (exists r, fst (common.AddFlowRecord bd_Write b st) = common.Ok r) /\
  ((exists msg, fst (common.AddAppLog bd_Write id b st) = common.Panicked msg) <->
   exists m, common.AppLogs (common.dev st) = Some m /\ m !! id = Some None).
Proof.
  assert (G : forall field msg,
    exists r, fst (common.bind Stream Certificate (common.this Stream Certificate) (fun d =>
      match field d with
      | None => common.ret Stream Certificate (Some (common.errors_New BackendError msg))
      | Some _ =>
        common.bind Stream Certificate
          (common.Write Stream BackendError Certificate bd_Write (field d) b)
          (fun r => common.ret Stream Certificate (snd r))
      end) st) = common.Ok r).
  { intros field msg. destruct (field (common.dev st)) as [l|] eqn:E.
    - rewrite (guarded_write_run field msg b st l E). eauto.
    - unfold common.bind, common.this, common.ret. rewrite E. eauto. }
  split; [exact (G common.Logs _)|]. split; [exact (G common.Info _)|].
  split; [exact (G common.Metrics _)|]. split; [exact (G common.Requests _)|].
  split; [exact (G common.FlowMessage _)|].
  destruct (common.AppLogs (common.dev st)) as [m|] eqn:E.
  - destruct (m !! id) as [[l|]|] eqn:Em.
    + rewrite (AddAppLog_delegates bd_Write st id b m l E Em). cbn [fst]. split.
      * intros [msg H]. discriminate.
      * intros (m' & [= <-] & H). unfold common.BigData in *. congruence.
    + rewrite (AddAppLog_nil_entry bd_Write st id b m E Em). cbn [fst]. split; eauto.
    + rewrite (AddAppLog_not_found bd_Write st id b m E Em). cbn [fst]. split.
      * intros [msg H]. discriminate.
      * intros (m' & [= <-] & H). unfold common.BigData in *. congruence.
  - rewrite (AddAppLog_uninitialized bd_Write st id b E). cbn [fst]. split.
    + intros [msg H]. discriminate.
    + intros (m' & H & _). discriminate.
Qed.

(** X12: writes to two streams that are different objects do not
    interfere: whichever of [AddLogs] and [AddInfo] runs first, each
    returns the same error, every stream object ends in the same state
    and the aggregate is unchanged; only the order in the record of calls
    differs. *)
Theorem AddLogs_AddInfo_commute (st : State) (b1 b2 : string) (l1 l2 : common.loc) :
  common.Logs (common.dev st) = Some l1 ->
  common.Info (common.dev st) = Some l2 ->
  l1 <> l2 ->
  let s1 := snd (common.AddLogs bd_Write b1 st) in
  let s2 := snd (common.AddInfo bd_Write b2 st) in
  let s12 := snd (common.AddInfo bd_Write b2 s1) in
  let s21 := snd (common.AddLogs bd_Write b1 s2) in
  fst (common.AddLogs bd_Write b1 s2) = fst (common.AddLogs bd_Write b1 st) /\
  fst (common.AddInfo bd_Write b2 s1) = fst (common.AddInfo bd_Write b2 st) /\
  common.dev s12 = common.dev st /\ common.dev s21 = common.dev st /\
  (forall l, common.heap s12 l = common.heap s21 l) /\
  common.writes s12 = (common.writes st ++ [(l1, b1); (l2, b2)])%list /\
  common.writes s21 = (common.writes st ++ [(l2, b2); (l1, b1)])%list.
Proof.
  intros H1 H2 Hne s1 s2 s12 s21. subst s12 s21 s1 s2.
  rewrite (AddLogs_run b1 st l1 H1), (AddInfo_run b2 st l2 H2). cbn [snd].
  match goal with |- context [common.AddInfo bd_Write b2 ?s] =>
    rewrite (AddInfo_run b2 s l2 H2) end.
  match goal with |- context [common.AddLogs bd_Write b1 ?s] =>
    rewrite (AddLogs_run b1 s l1 H1) end.
  cbn [fst snd common.dev common.heap common.writes].
  rewrite !fn_lookup_insert_ne by congruence.
  repeat split; try (rewrite <- app_assoc; reflexivity).
  intro l. destruct (decide (l = l1)) as [E1|N1]; [subst l|].
  - rewrite fn_lookup_insert_ne by congruence. rewrite !fn_lookup_insert. reflexivity.
  - destruct (decide (l = l2)) as [E2|N2]; [subst l|].
    + rewrite fn_lookup_insert. rewrite fn_lookup_insert_ne by congruence.
      rewrite fn_lookup_insert. reflexivity.
    + rewrite !fn_lookup_insert_ne by congruence. reflexivity.
Qed.

(** X13: two [AddLogs] calls in a row hand the stream the two payloads in
    the order of the calls: the stream ends in the state the second
    [Write] leaves after the first, and the record of calls grows by the
    two writes in that order. *)
Theorem AddLogs_twice (st : State) (b1 b2 : string) (l : common.loc) :
  common.Logs (common.dev st) = Some l ->
  let s1 := snd (common.AddLogs bd_Write b1 st) in
  let s2 := snd (common.AddLogs bd_Write b2 s1) in
  common.heap s2 l = fst (bd_Write (fst (bd_Write (common.heap st l) b1)) b2) /\
  fst (common.AddLogs bd_Write b2 s1)
  = common.Ok (common.backendError
               <$> snd (snd (bd_Write (fst (bd_Write (common.heap st l) b1)) b2))) /\
  common.writes s2 = (common.writes st ++ [(l, b1); (l, b2)])%list /\
  (forall l', l' <> l -> common.heap s2 l' = common.heap st l').
Proof.
  intros H s1 s2. subst s2 s1.
  rewrite (AddLogs_run b1 st l H). cbn [snd].
  match goal with |- context [common.AddLogs bd_Write b2 ?s] =>
    rewrite (AddLogs_run b2 s l H) end.
  cbn [fst snd common.dev common.heap common.writes].
  rewrite !fn_lookup_insert.
  repeat split; try (rewrite <- app_assoc; reflexivity).
  intros l' N. rewrite !fn_lookup_insert_ne by congruence. reflexivity.
Qed.

(** X14: app-log isolation: a write to the app log of one instance leaves
    the stream of every other instance whose stream is another object as
    it was, and leaves the map of app logs as it was, so that a later
    write to the other instance meets the same stream state. *)
Theorem AddAppLog_isolated (st : State) (idA idB : uuid.UUID) (b : string)
    (m : gmap uuid.UUID common.BigData) (lA lB : common.loc) :
  common.AppLogs (common.dev st) = Some m ->
  m !! idA = Some (Some lA) ->
  m !! idB = Some (Some lB) ->
  lA <> lB ->
  let s1 := snd (common.AddAppLog bd_Write idA b st) in
  common.heap s1 lB = common.heap st lB /\
  common.AppLogs (common.dev s1) = Some m /\
  (forall b', fst (common.AddAppLog bd_Write idB b' s1)
              = fst (common.AddAppLog bd_Write idB b' st)) /\
  (forall b', common.heap (snd (common.AddAppLog bd_Write idB b' s1)) lB
              = common.heap (snd (common.AddAppLog bd_Write idB b' st)) lB).
Proof.
  intros Hm HA HB Hne s1. subst s1.
  rewrite (AddAppLog_delegates bd_Write st idA b m lA Hm HA). cbn [snd common.dev common.heap].
  split; [apply fn_lookup_insert_ne; congruence|]. split; [exact Hm|].
  split; intro b'.
  - rewrite (AddAppLog_delegates bd_Write st idB b' m lB Hm HB).
    match goal with |- context [common.AddAppLog bd_Write idB b' ?s] =>
      rewrite (AddAppLog_delegates bd_Write s idB b' m lB Hm HB) end.
    cbn [fst common.heap]. rewrite fn_lookup_insert_ne by congruence. reflexivity.
  - rewrite (AddAppLog_delegates bd_Write st idB b' m lB Hm HB).
    match goal with |- context [common.AddAppLog bd_Write idB b' ?s] =>
      rewrite (AddAppLog_delegates bd_Write s idB b' m lB Hm HB) end.
    cbn [snd common.heap]. rewrite !fn_lookup_insert.
    rewrite fn_lookup_insert_ne by congruence. reflexivity.
Qed.

End Sequences.

(** ** UUIDs in texts and blobs *)

Section Uuid.
Local Open Scope N_scope.

Lemma hexByte_length (b : N) (acc : string) :
  String.length (uuid.hexByte b +:+ acc) = S (S (String.length acc)).
Proof. reflexivity. Qed.

Lemma hexBytes_length (u : uuid.UUID) (from to : nat) :
  String.length (uuid.hexBytes u from to) = (2 * (to - from))%nat.
Proof.
  unfold uuid.hexBytes.
  assert (G : forall l : list nat,
    String.length (fold_right (fun i acc => uuid.hexByte (uuid.byteOf u i) +:+ acc)
                              EmptyString l) = (2 * List.length l)%nat).
  { induction l as [|i l IH]; [reflexivity|].
    cbn [fold_right List.length]. rewrite hexByte_length, IH. lia. }
  rewrite G, List.length_seq. reflexivity.
Qed.

Lemma uuid_String_length (u : uuid.UUID) : String.length (uuid.String u) = 36%nat.
Proof.
  unfold uuid.String. rewrite !append_length, !hexBytes_length. reflexivity.
Qed.

Lemma append_inj_length (a : string) :
  forall b x y, String.length a = String.length b ->
  a +:+ x = b +:+ y -> a = b /\ x = y.
Proof.
  induction a as [|c a IH]; intros [|d b] x y Hl H; simpl in Hl; try discriminate.
  - split; [reflexivity | exact H].
  - rewrite !append_cons in H. injection H as -> H.
    destruct (IH b x y) as [-> ->]; [lia | exact H | split; reflexivity].
Qed.

Lemma hexByteInjective_holds : hexByteInjective = true.
Proof. vm_compute. reflexivity. Qed.

Lemma hexByte_inj (b b' : N) :
  b < 256 -> b' < 256 -> uuid.hexByte b = uuid.hexByte b' -> b = b'.
Proof.
  intros Hb Hb' H.
  pose proof (forall_bytes _ hexByteInjective_holds b Hb) as F. cbv beta in F.
  pose proof (forall_bytes _ F b' Hb') as G. cbv beta in G.
  rewrite H, String.eqb_refl in G. cbn [implb] in G. now apply N.eqb_eq.
Qed.

Lemma byteOf_lt (u : uuid.UUID) (i : nat) : uuid.byteOf u i < 256.
Proof.
  unfold uuid.byteOf. change 0xFF with (N.ones 8). rewrite N.land_ones.
  apply N.mod_lt. discriminate.
Qed.

Lemma hexBytes_inj (u v : uuid.UUID) (from to : nat) :
  uuid.hexBytes u from to = uuid.hexBytes v from to ->
  forall i, (from <= i < to)%nat -> uuid.byteOf u i = uuid.byteOf v i.
Proof.
  unfold uuid.hexBytes. intros H i Hi.
  assert (Hin : In i (seq from (to - from))) by (apply in_seq; lia).
  revert H Hin. induction (seq from (to - from)) as [|j l IH]; intros H Hin; [destruct Hin|].
  cbn [fold_right] in H.
  apply append_inj_length in H as [H1 H2]; [|reflexivity].
  destruct Hin as [<-|Hin]; [|now apply IH].
  apply hexByte_inj; auto using byteOf_lt.
Qed.

Lemma uuid_String_bytes (u v : uuid.UUID) :
  uuid.String u = uuid.String v ->
  forall i, (i < 16)%nat -> uuid.byteOf u i = uuid.byteOf v i.
Proof.
  unfold uuid.String. intros H i Hi.
  apply append_inj_length in H as [H1 H]; [|now rewrite !hexBytes_length].
  apply append_cancel_l in H.
  apply append_inj_length in H as [H2 H]; [|now rewrite !hexBytes_length].
  apply append_cancel_l in H.
  apply append_inj_length in H as [H3 H]; [|now rewrite !hexBytes_length].
  apply append_cancel_l in H.
  apply append_inj_length in H as [H4 H]; [|now rewrite !hexBytes_length].
  apply append_cancel_l in H.
  destruct (Nat.lt_ge_cases i 4); [apply (hexBytes_inj u v 0 4 H1); lia|].
  destruct (Nat.lt_ge_cases i 6); [apply (hexBytes_inj u v 4 6 H2); lia|].
  destruct (Nat.lt_ge_cases i 8); [apply (hexBytes_inj u v 6 8 H3); lia|].
  destruct (Nat.lt_ge_cases i 10); [apply (hexBytes_inj u v 8 10 H4); lia|].
  apply (hexBytes_inj u v 10 16 H); lia.
Qed.

Lemma testbit_high (u n : N) : u < 2 ^ 128 -> 128 <= n -> N.testbit u n = false.
Proof.
  intros Hu Hn. destruct (N.eq_dec u 0) as [->|Hz]; [apply N.bits_0|].
  apply N.bits_above_log2. apply N.lt_le_trans with 128; [|exact Hn].
  apply N.log2_lt_pow2; [lia | exact Hu].
Qed.

Lemma byteOf_testbit (u : uuid.UUID) (n : N) :
  n < 128 ->
  N.testbit u n = N.testbit (uuid.byteOf u (15 - N.to_nat (n / 8))) (n mod 8).
Proof.
  intro Hn. unfold uuid.byteOf.
  assert (Hq : n / 8 < 16) by (apply N.Div0.div_lt_upper_bound; lia).
  assert (Hm : n mod 8 < 8) by (apply N.mod_lt; discriminate).
  rewrite N.land_spec, N.shiftr_spec by apply N.le_0_l.
  change 0xFF with (N.ones 8). rewrite N.ones_spec_low by exact Hm.
  rewrite andb_true_r. f_equal.
  pose proof (N.div_mod n 8 ltac:(discriminate)) as D.
  set (q := n / 8) in *. set (m := n mod 8) in *. lia.
Qed.

Lemma uuid_bytes_inj (u v : uuid.UUID) :
  validUUID u -> validUUID v ->
  (forall i, (i < 16)%nat -> uuid.byteOf u i = uuid.byteOf v i) -> u = v.
Proof.
  unfold validUUID. intros Hu Hv H. apply N.bits_inj. intro n.
  destruct (N.lt_ge_cases n 128) as [L|G].
  - rewrite (byteOf_testbit u n L), (byteOf_testbit v n L), H;
      [reflexivity | apply Nat.lt_succ_r, Nat.le_sub_l].
  - now rewrite !testbit_high.
Qed.

Lemma uuid_String_inj (u v : uuid.UUID) :
  validUUID u -> validUUID v -> uuid.String u = uuid.String v -> u = v.
Proof. intros Hu Hv H. apply uuid_bytes_inj; auto using uuid_String_bytes. Qed.

Lemma uuid_String_nonempty (u : uuid.UUID) :
  exists c t, uuid.String u = String c t.
Proof.
  pose proof (uuid_String_length u) as H.
  destruct (uuid.String u) as [|c t]; [discriminate | eauto].
Qed.

End Uuid.

Section NotFound.
Context {Stream BackendError Certificate : Type}.
Context (bd_Write : Stream -> string -> Stream * (Z * option BackendError)).

(** X15: the error [AddAppLog] returns for an instance without an entry
    names that instance: for two proper UUIDs without an entry the calls
    return the same error only if the UUIDs are the same, and neither
    call touches the state. *)
Theorem AddAppLog_error_names_instance
    (st : common.State Stream Certificate) (id1 id2 : uuid.UUID) (b : string)
    (m : gmap uuid.UUID common.BigData) :
  validUUID id1 -> validUUID id2 ->
  common.AppLogs (common.dev st) = Some m ->
  m !! id1 = None -> m !! id2 = None ->
  (fst (common.AddAppLog bd_Write id1 b st) = fst (common.AddAppLog bd_Write id2 b st)
   <-> id1 = id2) /\
  snd (common.AddAppLog bd_Write id1 b st) = st.
Proof.
  intros V1 V2 Hm H1 H2.
  rewrite (AddAppLog_not_found bd_Write st id1 b m Hm H1).
  rewrite (AddAppLog_not_found bd_Write st id2 b m Hm H2).
  cbn [fst snd]. split; [|reflexivity]. split; [|intros ->; reflexivity].
  intro H.
  apply (f_equal (fun r => match r with
                           | common.Ok (Some (common.errorString s)) => s
                           | _ => EmptyString
                           end)) in H.
  cbv beta iota in H. apply append_cancel_l in H. apply append_cancel_r in H.
  now apply uuid_String_inj.
Qed.

End NotFound.

Lemma AddAppLog_error_names_instance_witness :
  (fst (common.AddAppLog common.memWrite 1%N "chunk" common.demoState)
   = fst (common.AddAppLog common.memWrite 2%N "chunk" common.demoState)
   <-> 1%N = 2%N) /\
  snd (common.AddAppLog common.memWrite 1%N "chunk" common.demoState) = common.demoState.
Proof.
  exact (AddAppLog_error_names_instance common.memWrite common.demoState 1%N 2%N "chunk" _
           ltac:(vm_compute; reflexivity) ltac:(vm_compute; reflexivity)
           eq_refl ltac:(vm_compute; reflexivity) ltac:(vm_compute; reflexivity)).
Defined.

(** X16: the base configuration tells devices apart: for proper UUIDs
    [CreateBaseConfig] returns the same bytes only for the same UUID,
    whatever the field numbers of the schema, and the blob has the same
    length for every UUID. *)
Theorem CreateBaseConfig_injective (numId numUuid numVersion : N) (u v : uuid.UUID) :
  validUUID u -> validUUID v ->
  (common.CreateBaseConfig numId numUuid numVersion u
   = common.CreateBaseConfig numId numUuid numVersion v <-> u = v) /\
  String.length (common.CreateBaseConfig numId numUuid numVersion u)
  = String.length (common.CreateBaseConfig numId numUuid numVersion v).
Proof.
  intros Vu Vv.
  pose proof (uuid_String_length u) as Lu. pose proof (uuid_String_length v) as Lv.
  assert (Inj : uuid.String u = uuid.String v -> u = v) by (now apply uuid_String_inj).
  unfold common.CreateBaseConfig, common.marshalEdgeDevConfig, common.marshalUUIDandVersion.
  cbn [common.Id common.Uuid common.Version fmap option_fmap option_map proto.messageField].
  destruct (uuid_String_nonempty u) as (cu & tu & Eu).
  destruct (uuid_String_nonempty v) as (cv & tv & Ev).
  rewrite Eu, Ev in *. cbn [proto.stringField].
  assert (L : String.length (proto.bytesField numUuid (String cu tu)
                             +:+ proto.bytesField numVersion "4")
              = String.length (proto.bytesField numUuid (String cv tv)
                               +:+ proto.bytesField numVersion "4")).
  { unfold proto.bytesField. rewrite !append_length, Lu, Lv. reflexivity. }
  split.
  - split; [|intros ->; rewrite <- Eu, <- Ev; reflexivity].
    intro H. apply Inj.
    apply (bytesField_inj _ _ _ L) in H.
    apply append_cancel_r in H.
    apply bytesField_inj in H; [exact H | now rewrite Lu, Lv].
  - assert (BL : forall n p,
      String.length (proto.bytesField n p)
      = (String.length (proto.varint 10 (N.lor (N.shiftl n 3) 2))
         + (String.length (proto.varint 10 (N.of_nat (String.length p)))
            + String.length p))%nat).
    { intros. unfold proto.bytesField. rewrite !append_length. reflexivity. }
    rewrite (BL numId), (BL numId), L. reflexivity.
Qed.

Lemma CreateBaseConfig_injective_witness :
  (common.CreateBaseConfig 1%N 1%N 2%N 7%N = common.CreateBaseConfig 1%N 1%N 2%N 11%N
   <-> 7%N = 11%N) /\
  String.length (common.CreateBaseConfig 1%N 1%N 2%N 7%N)
  = String.length (common.CreateBaseConfig 1%N 1%N 2%N 11%N).
Proof.
  exact (CreateBaseConfig_injective 1%N 1%N 2%N 7%N 11%N
           ltac:(vm_compute; reflexivity) ltac:(vm_compute; reflexivity)).
Defined.

Lemma AddLogs_AddInfo_commute_witness :
  common.writes
    (snd (common.AddInfo common.memWrite "info"
            (snd (common.AddLogs common.memWrite "log" common.demoState))))
  = [(3%positive, "log"); (1%positive, "info")].
Proof.
  exact (proj1 (proj2 (proj2 (proj2 (proj2 (proj2
           (AddLogs_AddInfo_commute common.memWrite common.demoState "log" "info"
              3%positive 1%positive eq_refl eq_refl ltac:(discriminate)))))))).
Defined.

Lemma AddLogs_twice_witness :
  common.heap
    (snd (common.AddLogs common.memWrite "second"
            (snd (common.AddLogs common.memWrite "first" common.demoState))))
    3%positive
  = ["first"; "second"].
Proof.
  exact (proj1 (AddLogs_twice common.memWrite common.demoState "first" "second"
                  3%positive eq_refl)).
Defined.

Lemma AddAppLog_isolated_witness :
  common.heap (snd (common.AddAppLog common.memWrite 7%N "chunk" common.demoTwoApps))
    12%positive
  = common.heap common.demoTwoApps 12%positive.
Proof.
  exact (proj1 (AddAppLog_isolated common.memWrite common.demoTwoApps 7%N 11%N "chunk" _
                  8%positive 12%positive eq_refl eq_refl eq_refl ltac:(discriminate))).
Defined.
